(** * IPTV Quick Analysis: a shallow embedding of [iptv_quick_analysis.py]

    The development follows the sections of the script: helper functions
    (error classification, mirror suggestion), URL validation, M3U and EPG
    metadata extraction, the EPG audit, fuzzy matching and deduplication.

    Conventions.
    - A Python [str] is a [string]; the model covers ASCII text, one
      character per byte.
    - A JSON object used as a dictionary is a [gmap] where only membership
      and lookup matter, and an association list where the walk order does.
    - A value obtained with [dict.get] or [Element.get] that may be [None]
      is an [option string]; Python truthiness of such a value is [truthy].
    - The network is an oracle: the n-th request of a run returns what the
      oracle says; [time.sleep] calls are recorded in a trace. *)

From Stdlib Require Import ZArith QArith Ascii String.
From stdpp Require Import gmap strings list fin_maps.

Local Open Scope string_scope.
Local Open Scope list_scope.

(** ** Python string primitives *)
Module Py.

(** [s.startswith(p)] *)
Definition startswith (p s : string) : bool := String.prefix p s.

(** [needle in hay] *)
Fixpoint contains (needle hay : string) : bool :=
  String.prefix needle hay ||
  match hay with
  | EmptyString => false
  | String _ t => contains needle t
  end.

Definition lower_ascii (c : ascii) : ascii :=
  let n := Ascii.nat_of_ascii c in
  if (65 <=? n)%nat && (n <=? 90)%nat then Ascii.ascii_of_nat (n + 32) else c.

(** [s.lower()] on ASCII text *)
Fixpoint lower (s : string) : string :=
  match s with
  | EmptyString => EmptyString
  | String c t => String (lower_ascii c) (lower t)
  end.

(** [s.replace(old, new)] for a non-empty [old]: occurrences are replaced
    left to right and do not overlap.  [skip] counts the characters of an
    occurrence that has just been replaced and are still to be passed. *)
Fixpoint replace_from (old new : string) (skip : nat) (s : string) : string :=
  match s with
  | EmptyString => EmptyString
  | String c t =>
      match skip with
      | S k => replace_from old new k t
      | O =>
          if String.prefix old s
          then new ++ replace_from old new (String.length old - 1) t
          else String c (replace_from old new 0 t)
      end
  end.

Definition replace (old new s : string) : string := replace_from old new 0 s.

(** Truthiness of a string and of a possibly-[None] string. *)
Definition nonempty (s : string) : bool :=
  match s with EmptyString => false | _ => true end.

Definition truthy (o : option string) : bool :=
  match o with Some s => nonempty s | None => false end.

Definition is_line_break (c : ascii) : bool :=
  let n := Ascii.nat_of_ascii c in
  ((10 <=? n)%nat && (n <=? 13)%nat) || ((28 <=? n)%nat && (n <=? 30)%nat).

(** [s.splitlines()]: the ASCII line boundaries, a carriage return followed
    by a line feed counting as one. [cur] is the line read so far. *)
Fixpoint splitlines_from (cur : string) (s : string) : list string :=
  match s with
  | EmptyString => if nonempty cur then [cur] else []
  | String c t =>
      if Ascii.eqb c "013"%char then
        match t with
        | String c' t' =>
            if Ascii.eqb c' "010"%char
            then cur :: splitlines_from EmptyString t'
            else cur :: splitlines_from EmptyString t
        | EmptyString => cur :: splitlines_from EmptyString t
        end
      else if is_line_break c then cur :: splitlines_from EmptyString t
      else splitlines_from (cur ++ String c EmptyString) t
  end.

Definition splitlines (s : string) : list string := splitlines_from EmptyString s.

(** The group of the patterns of [extract_m3u_metadata], a lazy run of
    any characters between two quotes: after the opening quote, the
    shortest run of characters other than a newline that a quote closes. *)
Fixpoint scan_value (s : string) : option string :=
  match s with
  | EmptyString => None
  | String c t =>
      if Ascii.eqb c "034"%char then Some EmptyString
      else if Ascii.eqb c "010"%char then None
      else match scan_value t with
           | Some v => Some (String c v)
           | None => None
           end
  end.

Fixpoint drop (n : nat) (s : string) : string :=
  match n, s with
  | S k, String _ t => drop k t
  | _, _ => s
  end.

(** [re.search(pattern, s)] followed by [group(1)], for a pattern made of
    the literal [opening] (which ends in the opening quote), the lazy
    group and the closing quote: the leftmost position where the pattern
    matches wins; [None] when it matches nowhere. *)
Fixpoint search_group (opening s : string) : option string :=
  let here :=
    if String.prefix opening s then scan_value (drop (String.length opening) s)
    else None in
  match here with
  | Some v => Some v
  | None =>
      match s with
      | EmptyString => None
      | String _ t => search_group opening t
      end
  end.

End Py.

(** ** Channel records ([channels_metadata.json]) *)
Record Channel := mkChannel {
  TVG_ID : string;
  TVG_NAME : string;
  TVG_LOGO : string;
  TVG_GROUP : string;
  TVG_URL : string;
  TVG_LANGUAGE : string;
  source_url : string;
  matched_epg_id : option string
}.

(** ** Section 5.7.1: [deduplicate_channels] *)
Module Deduplicator.

(** The loop body: [seen] and [unique] after looking at [ch]. *)
Definition step (acc : gset string * list Channel) (ch : Channel)
  : gset string * list Channel :=
  let '(seen, unique) := acc in
  let tvg_id := TVG_ID ch in
  if Py.nonempty tvg_id && bool_decide (tvg_id ∉ seen)
  then ({[tvg_id]} ∪ seen, unique ++ [ch])
  else (seen, unique).

Definition deduplicate_channels (channels : list Channel) : list Channel :=
  snd (foldl step (∅, []) channels).

(** The identifiers of a list of records, in order. *)
Definition ids (chs : list Channel) : list string := map TVG_ID chs.

End Deduplicator.

(** ** Section 3.1.0: [categorize_error] *)
Module ErrorClassifier.

(** The argument is [str(e)], the text of the exception. *)
Definition categorize_error (e : string) : string :=
  let msg := Py.lower e in
  if Py.contains "timeout" msg then "Timeout"
  else if Py.contains "dns" msg || Py.contains "name resolution" msg then "DNSFailure"
  else if Py.contains "connection" msg then "ConnectionError"
  else "UnknownError".

End ErrorClassifier.

(** ** The URL store ([playlist_epg_urls.json]) *)

(** One element of a URL's [status_history]: the [status] dictionary of a
    request that returned, or the [error_log] dictionary of one that raised. *)
Inductive StatusRecord :=
| Status (timestamp : string) (status_code : Z) (ok : bool) (response_time_ms : Z)
| ErrorLog (timestamp : string) (error_type : string) (error_message : string).

(** One value of [last_status]. A key the dictionary does not have is [None]. *)
Record LastStatus := mkLastStatus {
  alive : option bool;
  last_checked : string;
  ls_response_time_ms : option Z;
  ls_error_type : option string;
  ls_error_message : option string
}.

Record Data := mkData {
  playlist_urls : list string;
  epg_urls : list string;
  status_history : gmap string (list StatusRecord);
  last_status : gmap string LastStatus;
  mirror_suggestions : gmap string string
}.

(** [data.setdefault("status_history", {}).setdefault(url, []).append(r)] *)
Definition append_history (url : string) (r : StatusRecord) (d : Data) : Data :=
  mkData (playlist_urls d) (epg_urls d)
         (<[url := default [] (status_history d !! url) ++ [r]]> (status_history d))
         (last_status d) (mirror_suggestions d).

(** [data.setdefault("last_status", {})[url] = ls] *)
Definition set_last_status (url : string) (ls : LastStatus) (d : Data) : Data :=
  mkData (playlist_urls d) (epg_urls d) (status_history d)
         (<[url := ls]> (last_status d)) (mirror_suggestions d).

(** [data.setdefault("mirror_suggestions", {})[url] = suggested] *)
Definition set_mirror (url suggested : string) (d : Data) : Data :=
  mkData (playlist_urls d) (epg_urls d) (status_history d) (last_status d)
         (<[url := suggested]> (mirror_suggestions d)).

(** ** Section 3.1.1: [suggest_mirror] *)
Module MirrorAdvisor.

(** Section 2.1.2, in the order of the dictionary literal. *)
Definition MIRROR_MAP : list (string * string) :=
  [ ("iptv-org.github.io", "raw.githubusercontent.com/iptv-org");
    ("epg.pw", "epgshare01.online") ].

Definition suggest_step (url : string) (d : Data) (item : string * string) : Data :=
  let '(key, mirror) := item in
  if Py.contains key url then set_mirror url (Py.replace key mirror url) d else d.

Definition suggest_mirror (url : string) (d : Data) : Data :=
  foldl (suggest_step url) d MIRROR_MAP.

End MirrorAdvisor.

(** ** Section 4.1.0: [validate_urls] *)
Module Validator.

(** What one [requests.head(url, timeout=10)] does: it returns a response
    (its status code, and the milliseconds measured around the call), or
    it raises an exception whose text is [message]. *)
Inductive Outcome :=
| Response (status_code : Z) (elapsed : Z)
| Raises (message : string).

(** The network: the outcome of the n-th request of the run (counting
    from 0), made for the given URL. *)
Definition Network := nat -> string -> Outcome.

(** [response.ok] of the requests library: no 4xx or 5xx status. *)
Definition response_ok (status_code : Z) : bool :=
  negb ((400 <=? status_code)%Z && (status_code <? 600)%Z).

Record Summary := mkSummary {
  checked : nat;
  alive_total : nat;
  dead : nat;
  errors : gmap string nat
}.

(** The state the loops thread: the loaded [data], the [summary], and the
    effects on the outside: the number of requests made so far and the
    arguments of the [time.sleep] calls, in order. *)
Record State := mkState {
  data : Data;
  summary : Summary;
  requests_made : nat;
  sleeps : list nat
}.

Definition initial_summary : Summary := mkSummary 0 0 0 ∅.

Definition initial (d : Data) : State := mkState d initial_summary 0 [].

(** The [try] branch up to the test of [response.ok]. *)
Definition on_response (timestamp url : string) (code elapsed : Z) (st : State) : State :=
  let status := Status timestamp code (response_ok code) elapsed in
  let ls := mkLastStatus (Some (response_ok code)) timestamp (Some elapsed) None None in
  mkState (set_last_status url ls (append_history url status (data st)))
          (summary st) (S (requests_made st)) (sleeps st).

(** [summary["alive"] += 1] *)
Definition count_alive (st : State) : State :=
  let s := summary st in
  mkState (data st) (mkSummary (checked s) (S (alive_total s)) (dead s) (errors s))
          (requests_made st) (sleeps st).

(** The [except] branch, with its [time.sleep(2 ** attempt)]. *)
Definition on_exception (timestamp url message : string) (attempt : nat) (st : State) : State :=
  let error_type := ErrorClassifier.categorize_error message in
  let s := summary st in
  let s' := mkSummary (checked s) (alive_total s) (S (dead s))
              (<[error_type := S (default 0 (errors s !! error_type))]> (errors s)) in
  let error_log := ErrorLog timestamp error_type message in
  let ls := mkLastStatus (Some false) timestamp None (Some error_type) (Some message) in
  mkState (set_last_status url ls (append_history url error_log (data st)))
          s' (S (requests_made st)) (sleeps st ++ [2 ^ attempt]).

(** [for attempt in range(3)], over the attempts still to make; the
    boolean is [success] when the loop is left. *)
Fixpoint retry (net : Network) (timestamp url : string) (attempts : list nat)
         (st : State) : State * bool :=
  match attempts with
  | [] => (st, false)
  | attempt :: rest =>
      match net (requests_made st) url with
      | Response code elapsed =>
          let st' := on_response timestamp url code elapsed st in
          if response_ok code then (count_alive st', true)
          else retry net timestamp url rest st'
      | Raises message =>
          retry net timestamp url rest (on_exception timestamp url message attempt st)
      end
  end.

(** [summary["checked"] += 1] *)
Definition count_checked (st : State) : State :=
  let s := summary st in
  mkState (data st) (mkSummary (S (checked s)) (alive_total s) (dead s) (errors s))
          (requests_made st) (sleeps st).

Definition with_data (f : Data -> Data) (st : State) : State :=
  mkState (f (data st)) (summary st) (requests_made st) (sleeps st).

(** The body of [for url in urls]. *)
Definition validate_url (net : Network) (timestamp : string) (st : State) (url : string)
  : State :=
  let '(st', success) := retry net timestamp url (seq 0 3) (count_checked st) in
  if success then st' else with_data (MirrorAdvisor.suggest_mirror url) st'.

(** The body of [for category in ...]: [urls] is read from [data] when the
    category starts. *)
Definition validate_category (net : Network) (timestamp : string) (st : State)
           (category : Data -> list string) : State :=
  foldl (validate_url net timestamp) st (category (data st)).

(** The dictionary comprehension that builds [dead_links]. *)
Definition dead_links_of (ls : gmap string LastStatus) : gmap string LastStatus :=
  filter (fun kv => default false (alive (snd kv)) = false) ls.

(** [validate_urls]: [loaded] is what reading the URL file gave ([None]
    when it could not be read, and the function returns at once); the
    result is the final state and the [dead_links] dictionary. Writing the
    two files does not change either. *)
Definition validate_urls (net : Network) (timestamp : string) (loaded : option Data)
  : option (State * gmap string LastStatus) :=
  match loaded with
  | None => None
  | Some d =>
      let st := foldl (validate_category net timestamp) (initial d)
                      [playlist_urls; epg_urls] in
      Some (st, dead_links_of (last_status (data st)))
  end.

(** Whether an attempt with this outcome ends the retry loop. *)
Definition attempt_ok (o : Outcome) : bool :=
  match o with
  | Response code _ => response_ok code
  | Raises _ => false
  end.

(** The URLs of a pass, in the order they are checked. *)
Definition urls_of (d : Data) : list string := playlist_urls d ++ epg_urls d.

(** *** What a step leaves alone

    A URL whose history and last status are the same in [d'] as in [d],
    and stores with the same URL lists. *)
Definition untouched (u : string) (d d' : Data) : Prop :=
  default [] (status_history d' !! u) = default [] (status_history d !! u)
  /\ last_status d' !! u = last_status d !! u.

Definition same_urls (d d' : Data) : Prop :=
  playlist_urls d' = playlist_urls d /\ epg_urls d' = epg_urls d.

(** *** Reading the store *)

(** [data["status_history"].get(url, [])] *)
Definition history_of (d : Data) (url : string) : list StatusRecord :=
  default [] (status_history d !! url).

(** A record of an attempt that succeeded: a response with [ok] true. *)
Definition is_success (r : StatusRecord) : bool :=
  match r with
  | Status _ _ ok _ => ok
  | ErrorLog _ _ _ => false
  end.

(** A record of an attempt that did not: an error, or a response with
    [ok] false. *)
Definition is_failure (r : StatusRecord) : bool := negb (is_success r).

(** An [error_log] record of the given error kind. *)
Definition is_error_of (kind : string) (r : StatusRecord) : bool :=
  match r with
  | ErrorLog _ error_type _ => String.eqb error_type kind
  | Status _ _ _ _ => false
  end.

(** The number of [error_log] records of a kind in all the histories. *)
Definition errors_logged (kind : string) (h : gmap string (list StatusRecord)) : nat :=
  map_fold (fun _ records acc => (acc + List.length (List.filter (is_error_of kind) records))%nat)
           0%nat h.

(** [summary["errors"].get(kind, 0)] *)
Definition error_count (kind : string) (s : Summary) : nat :=
  default 0%nat (errors s !! kind).

(** The invariant of the pass: the logs of a kind in the histories are
    those that were there at the start, [h0], plus the count of the kind
    in the error map. *)
Definition errors_balance (kind : string) (h0 : gmap string (list StatusRecord))
           (st : State) : Prop :=
  errors_logged kind (status_history (data st))
  = (errors_logged kind h0 + error_count kind (summary st))%nat.

(** *** The summary in the specification's words

    For a pass that starts from an empty history: a URL never produced
    a successful attempt when its history has no success record; the
    dead count is the number of such URLs among those checked, and the
    error map counts the failures of such URLs only. *)
Definition never_succeeded (h : gmap string (list StatusRecord)) (url : string) : bool :=
  negb (existsb is_success (default [] (h !! url))).

Definition spec_dead_count (urls : list string) (h : gmap string (list StatusRecord)) : nat :=
  List.length (List.filter (never_succeeded h) urls).

Definition spec_error_count (kind : string) (urls : list string)
           (h : gmap string (list StatusRecord)) : nat :=
  list_sum (map (fun url => List.length (List.filter (is_error_of kind) (default [] (h !! url))))
                (List.filter (never_succeeded h) urls)).

(** The delays of the retry loop in the specification's words: one
    before the second attempt and one before the third, when these
    attempts follow a failure. *)
Definition spec_delays_all_failed : list nat := [2 ^ 0; 2 ^ 1]%nat.

End Validator.

(** ** Section 5.1.1: [extract_m3u_metadata] *)
Module PlaylistExtractor.

Definition quote : string := String "034"%char EmptyString.

(** The four patterns: the attribute name, an equals sign, and a quoted
    lazy group. *)
Definition attribute (name info : string) : option string :=
  Py.search_group (name ++ "=" ++ quote) info.

(** [m.group(1) if m else ""] *)
Definition group_or_empty (m : option string) : string := default "" m.

(** The [channel] dictionary built for the header at index [i]. *)
Definition channel_at (url : string) (lines : list string) (i : nat) (info : string)
  : Channel :=
  let stream := default "" (lines !! (i + 1)%nat) in
  mkChannel (group_or_empty (attribute "tvg-id" info))
            (group_or_empty (attribute "tvg-name" info))
            (group_or_empty (attribute "tvg-logo" info))
            (group_or_empty (attribute "group-title" info))
            stream "Unknown" url None.

(** What the body of [for i in range(len(lines))] appends to [channels]. *)
Definition visit_line (url : string) (lines : list string) (i : nat) : list Channel :=
  match lines !! i with
  | Some info =>
      if Py.startswith "#EXTINF" info then
        let channel := channel_at url lines i info in
        if Py.nonempty (TVG_NAME channel) || Py.nonempty (TVG_ID channel)
        then [channel] else []
      else []
  | None => []
  end.

Definition parse_lines (url : string) (lines : list string) : list Channel :=
  flat_map (visit_line url lines) (seq 0 (List.length lines)).

(** The fetch oracle: the text of the n-th [requests.get] of the run, or
    [None] when the request raised. *)
Definition Fetch := nat -> string -> option string.

Fixpoint extract_from (fetch : Fetch) (n : nat) (urls : list string)
         (channels : list Channel) : list Channel :=
  match urls with
  | [] => channels
  | url :: rest =>
      let channels' :=
        match fetch n url with
        | Some text => channels ++ parse_lines url (Py.splitlines text)
        | None => channels
        end in
      extract_from fetch (S n) rest channels'
  end.

Definition extract_m3u_metadata (fetch : Fetch) (loaded : option Data)
  : option (list Channel) :=
  match loaded with
  | None => None
  | Some d => Some (extract_from fetch 0 (playlist_urls d) [])
  end.

End PlaylistExtractor.

(** ** EPG entries ([epg_metadata.json]) *)
Record GuideEntry := mkGuideEntry {
  EPG_TVG_ID : option string;
  TVG_EPGID : option string;
  TVG_EPGURL : string;
  entry_type : string;
  language : string
}.

(** A dictionary in insertion order, as Python keeps it and as the JSON file
    holds it: assigning to a key that is present replaces the value in
    place, assigning to a new key appends. *)
Module ODict.

Fixpoint set {V : Type} (k : string) (v : V) (d : list (string * V)) : list (string * V) :=
  match d with
  | [] => [(k, v)]
  | (k', v') :: rest =>
      if String.eqb k' k then (k, v) :: rest else (k', v') :: set k v rest
  end.

Definition keys {V : Type} (d : list (string * V)) : list string := map fst d.

Definition values {V : Type} (d : list (string * V)) : list V := map snd d.

End ODict.

(** ** Section 5.2.1: [extract_epg_metadata] *)
Module GuideExtractor.

(** A [channel] child of the root: [channel.get("id")] and
    [channel.findtext("display-name")], each possibly [None]. *)
Record XmlChannel := mkXmlChannel {
  xml_id : option string;
  xml_display_name : option string
}.

(** The oracle for [requests.get] followed by [ET.fromstring]: the
    [channel] children of the root of the n-th document of the run, or
    [None] when either call raised. *)
Definition Fetch := nat -> string -> option (list XmlChannel).

(** The body of [for channel in root.findall("channel")]. *)
Definition visit_channel (url : string) (entries : list GuideEntry) (channel : XmlChannel)
  : list GuideEntry :=
  let tvg_id := xml_id channel in
  let tvg_epgid := xml_display_name channel in
  if negb (Py.truthy tvg_id) && negb (Py.truthy tvg_epgid) then entries
  else entries ++ [mkGuideEntry tvg_id tvg_epgid url "EPG" "unknown"].

Fixpoint extract_from (fetch : Fetch) (n : nat) (urls : list string)
         (epg_data : list (string * list GuideEntry)) : list (string * list GuideEntry) :=
  match urls with
  | [] => epg_data
  | url :: rest =>
      let epg_data' :=
        match fetch n url with
        | Some channels => ODict.set url (foldl (visit_channel url) [] channels) epg_data
        | None => epg_data
        end in
      extract_from fetch (S n) rest epg_data'
  end.

Definition extract_epg_metadata (fetch : Fetch) (loaded : option Data)
  : option (list (string * list GuideEntry)) :=
  match loaded with
  | None => None
  | Some d => Some (extract_from fetch 0 (epg_urls d) [])
  end.

End GuideExtractor.

(** ** Section 5.2.2: [audit_epg_metadata] *)
Module Auditor.

Record Audit := mkAudit {
  seen_ids : gset (option string);
  duplicates : list (string * option string);
  null_entries : list (string * GuideEntry);
  empty_sources : list string
}.

Definition initial : Audit := mkAudit ∅ [] [] [].

(** The body of [for entry in entries]. *)
Definition visit_entry (source : string) (a : Audit) (entry : GuideEntry) : Audit :=
  let tvg_id := EPG_TVG_ID entry in
  let tvg_epgid := TVG_EPGID entry in
  if negb (Py.truthy tvg_id) && negb (Py.truthy tvg_epgid) then
    mkAudit (seen_ids a) (duplicates a) (null_entries a ++ [(source, entry)])
            (empty_sources a)
  else if bool_decide (tvg_id ∈ seen_ids a) then
    mkAudit (seen_ids a) (duplicates a ++ [(source, tvg_id)]) (null_entries a)
            (empty_sources a)
  else
    mkAudit ({[tvg_id]} ∪ seen_ids a) (duplicates a) (null_entries a) (empty_sources a).

(** The body of [for source, entries in epg_data.items()]. *)
Definition visit_source (a : Audit) (item : string * list GuideEntry) : Audit :=
  let '(source, entries) := item in
  match entries with
  | [] => mkAudit (seen_ids a) (duplicates a) (null_entries a) (empty_sources a ++ [source])
  | _ => foldl (visit_entry source) a entries
  end.

(** The states the walk can reach from the state [a]: by the visit of
    one more entry, or of one more source. *)
Inductive walks_to (a : Audit) : Audit -> Prop :=
| walk_here : walks_to a a
| walk_entry (a' : Audit) (source : string) (entry : GuideEntry) :
    walks_to a a' -> walks_to a (visit_entry source a' entry)
| walk_source (a' : Audit) (item : string * list GuideEntry) :
    walks_to a a' -> walks_to a (visit_source a' item).

(** [audit_epg_metadata]: the four collections when the walk ends; the
    printed counts are their lengths and the length of [epg_data]. *)
Definition audit_epg_metadata (epg_data : list (string * list GuideEntry)) : Audit :=
  foldl visit_source initial epg_data.

End Auditor.

(** ** The standard library's [difflib.get_close_matches]

    A model of the CPython function for [n=1] and sequences shorter than 200
    elements (the automatic junk heuristic starts there), with no junk
    predicate. Scores are exact rationals where CPython has doubles: the
    score is [2*M/T] for integers no larger than the lengths, so rounding
    does not change a comparison with a cutoff such as 0.85 or 0.5. *)
Module Difflib.

Local Open Scope nat_scope.

(** Length of the longest common prefix. *)
Fixpoint common_prefix (a b : list ascii) : nat :=
  match a, b with
  | x :: a', y :: b' => if Ascii.eqb x y then S (common_prefix a' b') else 0
  | _, _ => 0
  end.

(** [find_longest_match] keeps [(besti, bestj, bestsize)] and replaces it
    only by a strictly longer block, so of all longest blocks it returns
    the one that starts earliest in [a], and of those the one that starts
    earliest in [b]. [scan_b] tries every start in [b] for one start [i]
    in [a]; [scan_a] tries every start in [a]. *)
Fixpoint scan_b (sa : list ascii) (i j : nat) (sb : list ascii) (best : nat * nat * nat)
  : nat * nat * nat :=
  match sb with
  | [] => best
  | _ :: tb =>
      let k := common_prefix sa sb in
      let best' := if snd best <? k then (i, j, k) else best in
      scan_b sa i (S j) tb best'
  end.

Fixpoint scan_a (i : nat) (sa b : list ascii) (best : nat * nat * nat)
  : nat * nat * nat :=
  match sa with
  | [] => best
  | _ :: ta => scan_a (S i) ta b (scan_b sa i 0 b best)
  end.

Definition find_longest_match (a b : list ascii) : nat * nat * nat :=
  scan_a 0 a b (0, 0, 0).

(** A block that is empty or starts before [bound] in the first sequence. *)
Definition starts_below (bound : nat) (block : nat * nat * nat) : Prop :=
  snd block = 0 \/ fst (fst block) < bound.

(** The total size of the blocks of [get_matching_blocks]: the longest
    block, then the same to its left and to its right. Each level
    consumes an element of [a], which bounds the depth. *)
Fixpoint matches_upto (depth : nat) (a b : list ascii) : nat :=
  match depth with
  | O => 0
  | S depth' =>
      let '(i, j, k) := find_longest_match a b in
      if k =? 0 then 0
      else matches_upto depth' (take i a) (take j b) + k
           + matches_upto depth' (drop (i + k) a) (drop (j + k) b)
  end.

Definition matches (a b : list ascii) : nat := matches_upto (S (List.length a)) a b.

(** [_calculate_ratio(matches, length)] *)
Definition calculate_ratio (m len : nat) : Q :=
  if len =? 0 then 1%Q else (Z.of_nat (2 * m) # Pos.of_nat len)%Q.

Definition ratio (a b : list ascii) : Q :=
  calculate_ratio (matches a b) (List.length a + List.length b).

(** [real_quick_ratio]: an upper bound from the lengths alone. *)
Definition real_quick_ratio (a b : list ascii) : Q :=
  calculate_ratio (Nat.min (List.length a) (List.length b))
                  (List.length a + List.length b).

(** Remove one occurrence of [x] from the elements still available. *)
Fixpoint take_one (x : ascii) (avail : list ascii) : option (list ascii) :=
  match avail with
  | [] => None
  | y :: rest =>
      if Ascii.eqb x y then Some rest
      else match take_one x rest with
           | Some rest' => Some (y :: rest')
           | None => None
           end
  end.

(** [quick_ratio]: an upper bound from the size of the multiset
    intersection of the elements of [a] and [b]. *)
Fixpoint multiset_matches (a avail : list ascii) : nat :=
  match a with
  | [] => 0
  | x :: a' =>
      match take_one x avail with
      | Some avail' => S (multiset_matches a' avail')
      | None => multiset_matches a' avail
      end
  end.

Definition quick_ratio (a b : list ascii) : Q :=
  calculate_ratio (multiset_matches a b) (List.length a + List.length b).

Definition chars (s : string) : list ascii := list_ascii_of_string s.

(** [cutoff <= r], for the three tests of the loop. *)
Definition reaches (r cutoff : Q) : bool := Qle_bool cutoff r.

(** The order of the [(score, x)] tuples: the scores first, the strings
    after them. *)
Definition tuple_lt (p q : Q * string) : bool :=
  match Qcompare (fst p) (fst q) with
  | Lt => true
  | Gt => false
  | Eq => String.ltb (snd p) (snd q)
  end.

(** The loop over [possibilities]: [word] is the second sequence, each
    candidate the first one. *)
Definition scored (word : string) (cutoff : Q) (possibilities : list string)
  : list (Q * string) :=
  flat_map (fun x =>
    let a := chars x in
    let b := chars word in
    if reaches (real_quick_ratio a b) cutoff
       && reaches (quick_ratio a b) cutoff
       && reaches (ratio a b) cutoff
    then [(ratio a b, x)] else []) possibilities.

(** [heapq.nlargest(1, result)] is [max(result)] of the tuples: the first
    of the largest ones. *)
Fixpoint max_from (best : Q * string) (result : list (Q * string)) : Q * string :=
  match result with
  | [] => best
  | p :: rest => max_from (if tuple_lt best p then p else best) rest
  end.

Definition nlargest_1 (result : list (Q * string)) : list (Q * string) :=
  match result with
  | [] => []
  | p :: rest => [max_from p rest]
  end.

(** [get_close_matches(word, possibilities, n=1, cutoff=cutoff)]; [None]
    stands for the [ValueError] of a cutoff outside [0, 1]. *)
Definition get_close_matches (word : string) (possibilities : list string) (cutoff : Q)
  : option (list string) :=
  if Qle_bool 0 cutoff && Qle_bool cutoff 1
  then Some (map snd (nlargest_1 (scored word cutoff possibilities)))
  else None.

End Difflib.

(** ** Sections 5.3.1 and 5.3.2: [smart_match], [fuzzy_match_channel_name] *)
Module Reconciler.

(** What a global name of the script can be bound to, as far as the
    matching code looks at it. *)
Inductive PyObj :=
| PyModule (name : string)
| PyFunction (qualified_name : string)
| PyValue.

Inductive Exn :=
| NameError (name : string)
| AttributeError (attribute : string)
| TypeError
| ValueError.

Inductive Result (A : Type) :=
| Ok (a : A)
| Raise (e : Exn).
Arguments Ok {A} a.
Arguments Raise {A} e.

(** The global names of [iptv_quick_analysis.py] once the module has been
    executed: its imports (sections 1.1.0 and 5.5.0), its constants and
    its functions. [from difflib import get_close_matches] binds the
    function and not the module. *)
Definition module_globals : list (string * PyObj) :=
  [ ("os", PyModule "os"); ("json", PyModule "json"); ("requests", PyModule "requests");
    ("ET", PyModule "xml.etree.ElementTree"); ("re", PyModule "re");
    ("logging", PyModule "logging"); ("time", PyModule "time"); ("html", PyModule "html");
    ("datetime", PyValue);
    ("get_close_matches", PyFunction "difflib.get_close_matches");
    ("BASE_DIR", PyValue); ("URL_JSON", PyValue); ("CHANNELS_JSON", PyValue);
    ("EPG_JSON", PyValue); ("DEAD_LINKS_JSON", PyValue); ("HTML_OUTPUT", PyValue);
    ("MIRROR_MAP", PyValue);
    ("categorize_error", PyFunction "categorize_error");
    ("suggest_mirror", PyFunction "suggest_mirror");
    ("validate_urls", PyFunction "validate_urls");
    ("extract_m3u_metadata", PyFunction "extract_m3u_metadata");
    ("extract_epg_metadata", PyFunction "extract_epg_metadata");
    ("audit_epg_metadata", PyFunction "audit_epg_metadata");
    ("smart_match", PyFunction "smart_match");
    ("fuzzy_match_channel_name", PyFunction "fuzzy_match_channel_name");
    ("match_channels_to_epg", PyFunction "match_channels_to_epg");
    ("generate_html_report", PyFunction "generate_html_report");
    ("format_html_table", PyFunction "format_html_table");
    ("csv", PyModule "csv"); ("CSV_OUTPUT", PyValue);
    ("export_channels_to_csv", PyFunction "export_channels_to_csv");
    ("export_epg_to_csv", PyFunction "export_epg_to_csv");
    ("deduplicate_channels", PyFunction "deduplicate_channels");
    ("export_html_to_pdf", PyFunction "export_html_to_pdf");
    ("filter_channels", PyFunction "filter_channels");
    ("search_channels", PyFunction "search_channels");
    ("export_filtered_channels_to_csv", PyFunction "export_filtered_channels_to_csv");
    ("compare_channels", PyFunction "compare_channels");
    ("generate_summary_dashboard", PyFunction "generate_summary_dashboard");
    ("menu", PyFunction "menu");
    ("launch_dashboard", PyFunction "launch_dashboard") ].

(** The globals a script would have with [import difflib] among its
    imports. *)
Definition globals_with_difflib : list (string * PyObj) :=
  ("difflib", PyModule "difflib") :: module_globals.

(** Looking a name up in the globals; the builtins, searched next, have
    no module names. *)
Fixpoint load_global (globals : list (string * PyObj)) (name : string) : Result PyObj :=
  match globals with
  | [] => Raise (NameError name)
  | (n, obj) :: rest => if String.eqb n name then Ok obj else load_global rest name
  end.

(** [obj.get_close_matches] *)
Definition load_get_close_matches (obj : PyObj) : Result PyObj :=
  match obj with
  | PyModule "difflib" => Ok (PyFunction "difflib.get_close_matches")
  | _ => Raise (AttributeError "get_close_matches")
  end.

(** Calling the object with [(channel_name, epg_names, n=1, cutoff=threshold)]. *)
Definition call_matcher (f : PyObj) (channel_name : string) (epg_names : list string)
           (threshold : Q) : Result (list string) :=
  match f with
  | PyFunction "difflib.get_close_matches" =>
      match Difflib.get_close_matches channel_name epg_names threshold with
      | Some matches => Ok matches
      | None => Raise ValueError
      end
  | _ => Raise TypeError
  end.

(** The list comprehension of [fuzzy_match_channel_name]. *)
Definition epg_names_of (epg_entries : list GuideEntry) : list string :=
  flat_map (fun entry =>
    if Py.truthy (TVG_EPGID entry) then [default "" (TVG_EPGID entry)] else [])
    epg_entries.

(** [fuzzy_match_channel_name], run with the given globals: the matched
    name, [None], or the exception that leaves the function. *)
Definition fuzzy_match_channel_name (globals : list (string * PyObj))
           (channel_name : string) (epg_entries : list GuideEntry) (threshold : Q)
  : Result (option string) :=
  let epg_names := epg_names_of epg_entries in
  match load_global globals "difflib" with
  | Raise e => Raise e
  | Ok difflib =>
      match load_get_close_matches difflib with
      | Raise e => Raise e
      | Ok f =>
          match call_matcher f channel_name epg_names threshold with
          | Raise e => Raise e
          | Ok matches => Ok (head matches)
          end
      end
  end.

Definition default_threshold : Q := (17 # 20)%Q.

Definition set_matched (m : string) (ch : Channel) : Channel :=
  mkChannel (TVG_ID ch) (TVG_NAME ch) (TVG_LOGO ch) (TVG_GROUP ch) (TVG_URL ch)
            (TVG_LANGUAGE ch) (source_url ch) (Some m).

(** The loop [for ch in channels] of [smart_match]; an exception of the
    matcher is not caught there and ends the function. *)
Fixpoint match_loop (globals : list (string * PyObj)) (epg_entries : list GuideEntry)
         (channels : list Channel) (matched : nat) : Result (list Channel * nat) :=
  match channels with
  | [] => Ok ([], matched)
  | ch :: rest =>
      let name := TVG_NAME ch in
      if negb (Py.nonempty name) then
        match match_loop globals epg_entries rest matched with
        | Ok (chs, n) => Ok (ch :: chs, n)
        | Raise e => Raise e
        end
      else
        match fuzzy_match_channel_name globals name epg_entries default_threshold with
        | Raise e => Raise e
        | Ok m =>
            let ch' := if Py.truthy m then set_matched (default "" m) ch else ch in
            let matched' := if Py.truthy m then S matched else matched in
            match match_loop globals epg_entries rest matched' with
            | Ok (chs, n) => Ok (ch' :: chs, n)
            | Raise e => Raise e
            end
        end
  end.

(** [smart_match]: the channels as they would be written back and the
    number of matches. *)
Definition smart_match (globals : list (string * PyObj)) (channels : list Channel)
           (epg_grouped : list (string * list GuideEntry)) : Result (list Channel * nat) :=
  let epg_entries := concat (ODict.values epg_grouped) in
  match_loop globals epg_entries channels 0.

End Reconciler.


(** ** Inputs of the worked examples *)
Module Examples.

Definition bbc1_first : Channel :=
  mkChannel "bbc1" "BBC One" "x.png" "UK" "http://x/bbc1.m3u8" "Unknown" "http://x/a.m3u" None.
Definition bbc1_second : Channel :=
  mkChannel "bbc1" "BBC One HD" "y.png" "UK" "http://y/bbc1.m3u8" "Unknown" "http://x/a.m3u" None.
Definition no_id : Channel :=
  mkChannel "" "Local News" "" "" "http://x/news.m3u8" "Unknown" "http://x/a.m3u" None.

Definition the_url : string := "http://epg.pw/list.m3u".

(** The timestamp of the pass. *)
Definition noon : string := "2025-09-01T12:00:00".

(** A store with one playlist URL and nothing recorded yet. *)
Definition one_url : Data := mkData [the_url] [] ∅ ∅ ∅.

(** A network whose first request times out and whose later requests
    are answered with 200. *)
Definition flaky : Validator.Network :=
  fun n _ => match n with
             | O => Validator.Raises "Read timed out. (read timeout=10)"
             | _ => Validator.Response 200 35
             end.

(** A network on which every request is refused. *)
Definition refusing : Validator.Network :=
  fun _ _ => Validator.Raises "Connection refused".

(** A network that answers every request with 404. *)
Definition not_found : Validator.Network :=
  fun _ _ => Validator.Response 404 20.

(** A store that lists the same URL as a playlist and as a guide. *)
Definition both_lists : Data := mkData [the_url] [the_url] ∅ ∅ ∅.

(** A network whose first request is answered with 200 and whose later
    requests are answered with 404. *)
Definition up_once : Validator.Network :=
  fun n _ => match n with
             | O => Validator.Response 200 35
             | _ => Validator.Response 404 20
             end.

(** A network whose first request times out and whose later requests
    are answered with 404. *)
Definition timeout_then_not_found : Validator.Network :=
  fun n _ => match n with
             | O => Validator.Raises "Read timed out. (read timeout=10)"
             | _ => Validator.Response 404 20
             end.

(** A playlist header line with an identifier and a name. *)
Definition header (tvg_id tvg_name : string) : string :=
  "#EXTINF:-1 tvg-id=" ++ PlaylistExtractor.quote ++ tvg_id ++ PlaylistExtractor.quote
  ++ " tvg-name=" ++ PlaylistExtractor.quote ++ tvg_name ++ PlaylistExtractor.quote
  ++ "," ++ tvg_name.

(** The header of the specification's example, with the four attributes. *)
Definition full_header : string :=
  "#EXTINF:-1 tvg-id=" ++ PlaylistExtractor.quote ++ "bbc1" ++ PlaylistExtractor.quote
  ++ " tvg-name=" ++ PlaylistExtractor.quote ++ "BBC One" ++ PlaylistExtractor.quote
  ++ " tvg-logo=" ++ PlaylistExtractor.quote ++ "x.png" ++ PlaylistExtractor.quote
  ++ " group-title=" ++ PlaylistExtractor.quote ++ "UK" ++ PlaylistExtractor.quote
  ++ ",BBC One".

Definition newline : string := String "010"%char EmptyString.

(** A playlist whose first header is followed by a second header, not by
    a stream URL. *)
Definition two_headers : string :=
  "#EXTM3U" ++ newline ++ header "a" "A" ++ newline ++ header "b" "B" ++ newline
  ++ "http://x/b.m3u8" ++ newline.

Definition serve (text : string) : PlaylistExtractor.Fetch := fun _ _ => Some text.


(** The guide pool of the reconciliation example. *)
Definition guide_pool : list GuideEntry :=
  [ mkGuideEntry (Some "bbc1") (Some "BBC One HD") "http://g/a.xml" "EPG" "unknown";
    mkGuideEntry (Some "itv1") (Some "ITV1") "http://g/a.xml" "EPG" "unknown" ].

(** Two guide names at the same distance from the channel name abc. *)
Definition tied_pool : list GuideEntry :=
  [ mkGuideEntry (Some "1") (Some "abd") "http://g/a.xml" "EPG" "unknown";
    mkGuideEntry (Some "2") (Some "abe") "http://g/a.xml" "EPG" "unknown" ].

(** Guide documents: the second URL cannot be fetched, the third has no
    channel. *)
Definition guide_urls : Data :=
  mkData [] ["http://g/a.xml"; "http://g/broken.xml"; "http://g/empty.xml"] ∅ ∅ ∅.

Definition guides : GuideExtractor.Fetch :=
  fun n _ => match n with
             | 0%nat => Some [GuideExtractor.mkXmlChannel (Some "bbc1") (Some "BBC One HD");
                              GuideExtractor.mkXmlChannel None None]
             | 1%nat => None
             | _ => Some []
             end.

End Examples.

(** * The rest of the script

    The definitions below cover what the visits of a pass add up to, and
    the maintenance and reporting functions that read the channel store. *)

(** ** What the retry loop and the mirror table add up to *)
Module Pass.
Import Validator.

(** The labels [categorize_error] can return. *)
Definition known_kinds : list string :=
  ["Timeout"; "DNSFailure"; "ConnectionError"; "UnknownError"].

(** The delays [time.sleep(2 ** attempt)] can ask for in [range(3)]. *)
Definition backoff_delays : list nat := [1; 2; 4]%nat.

(** A record written with the timestamp of the pass. *)
Definition stamped (timestamp : string) (r : StatusRecord) : Prop :=
  match r with
  | Status ts _ _ _ => ts = timestamp
  | ErrorLog ts _ _ => ts = timestamp
  end.

(** The last status written together with a history record: the same
    outcome under the same timestamp. *)
Definition as_last_status (r : StatusRecord) : LastStatus :=
  match r with
  | Status ts _ ok elapsed => mkLastStatus (Some ok) ts (Some elapsed) None None
  | ErrorLog ts error_type message =>
      mkLastStatus (Some false) ts None (Some error_type) (Some message)
  end.

(** What the retry loop has done to the store when it stops: the records
    [new] appended to the history of the URL, at most one per attempt, one
    request each; on success the last one is the success and the others are
    failures; the last status is that of the last record. *)
Definition recorded (timestamp url : string) (attempts : list nat)
           (st st' : State) (success : bool) (new : list StatusRecord) : Prop :=
  history_of (data st') url = history_of (data st) url ++ new /\
  Forall (stamped timestamp) new /\
  (List.length new <= List.length attempts)%nat /\
  (attempts <> [] -> new <> []) /\
  (success = false ->
   List.length new = List.length attempts /\ forallb is_failure new = true) /\
  (success = true ->
   exists init r, new = init ++ [r] /\ is_success r = true
                  /\ forallb is_failure init = true) /\
  last_status (data st') !! url
  = match last new with
    | Some r => Some (as_last_status r)
    | None => last_status (data st) !! url
    end /\
  requests_made st' = (requests_made st + List.length new)%nat /\
  mirror_suggestions (data st') = mirror_suggestions (data st).

(** What it has done to the counters and to the sleep trace: one delay per
    raised attempt, taken in order from the powers of two of the attempts. *)
Definition counted (attempts : list nat) (st st' : State) (success : bool)
           (delays : list nat) : Prop :=
  sleeps st' = sleeps st ++ delays /\
  sublist delays (map (Nat.pow 2) attempts) /\
  dead (summary st') = (dead (summary st) + List.length delays)%nat /\
  checked (summary st') = checked (summary st) /\
  alive_total (summary st')
  = (alive_total (summary st) + (if success then 1 else 0))%nat.

(** The error map holds known kinds only, and the dead counter is its
    total. *)
Definition kinds_invariant (s : Summary) : Prop :=
  (forall kind, is_Some (errors s !! kind) -> kind ∈ known_kinds) /\
  dead s = (error_count "Timeout" s + error_count "DNSFailure" s
            + error_count "ConnectionError" s + error_count "UnknownError" s)%nat.

(** The suggestion [suggest_mirror] leaves for a URL, if any: the loop
    over [MIRROR_MAP] has no [break], so the last matching key decides. *)
Definition suggestion (url : string) : option string :=
  foldl (fun acc item =>
           if Py.contains (fst item) url
           then Some (Py.replace (fst item) (snd item) url) else acc)
        None MirrorAdvisor.MIRROR_MAP.

End Pass.

(** ** The deduplication loop as a recursion

    [kept_from seen chs] is what the loop of [deduplicate_channels] appends
    to [unique] from a state with the given [seen] set. *)
Module Dedup.

Fixpoint kept_from (seen : gset string) (chs : list Channel) : list Channel :=
  match chs with
  | [] => []
  | ch :: rest =>
      if Py.nonempty (TVG_ID ch) && bool_decide (TVG_ID ch ∉ seen)
      then ch :: kept_from ({[TVG_ID ch]} ∪ seen) rest
      else kept_from seen rest
  end.

End Dedup.

(** ** Reading the guide store *)
Module Guide.

(** An entry with an identifier or a name: what the extractor keeps and
    what the audit does not count as a null entry. *)
Definition usable (e : GuideEntry) : bool :=
  Py.truthy (EPG_TVG_ID e) || Py.truthy (TVG_EPGID e).

(** All entries of the store, in the order of the walk. *)
Definition entries_of (epg_data : list (string * list GuideEntry)) : list GuideEntry :=
  concat (ODict.values epg_data).

(** The identifiers the walk looks up: those of the usable entries. *)
Definition walked_ids (epg_data : list (string * list GuideEntry)) : list (option string) :=
  map EPG_TVG_ID (List.filter usable (entries_of epg_data)).

(** The sources without entries, in order. *)
Definition sources_without_entries (epg_data : list (string * list GuideEntry))
  : list string :=
  flat_map (fun item => match snd item with [] => [fst item] | _ => [] end) epg_data.

(** The entries the extractor makes of the channels of one document. *)
Definition entries_from (url : string) (channels : list GuideExtractor.XmlChannel)
  : list GuideEntry :=
  foldl (GuideExtractor.visit_channel url) [] channels.

(** The number of entries the audit has put in one of its three
    collections. *)
Definition classified (a : Auditor.Audit) : nat :=
  (List.length (Auditor.null_entries a) + List.length (Auditor.duplicates a)
   + size (Auditor.seen_ids a))%nat.

(** The seen set and the absence of duplicates, against the identifiers
    walked so far. *)
Definition tracks (a : Auditor.Audit) (walked : list (option string)) : Prop :=
  Auditor.seen_ids a = list_to_set walked
  /\ (Auditor.duplicates a = [] <-> NoDup walked).

End Guide.

(** ** Reading playlist text *)
Module Playlist.

(** A text without a double quote and without a newline: what the lazy
    group of the attribute patterns can match. *)
Fixpoint plain (s : string) : bool :=
  match s with
  | EmptyString => true
  | String c t => negb (Ascii.eqb c "034"%char) && negb (Ascii.eqb c "010"%char) && plain t
  end.

(** A text without a line boundary. *)
Fixpoint one_line (s : string) : bool :=
  match s with
  | EmptyString => true
  | String c t => negb (Py.is_line_break c) && one_line t
  end.

(** The records of one URL of the batch: those of its text, none when the
    fetch raised. *)
Definition records_of (fetch : PlaylistExtractor.Fetch) (n : nat) (url : string)
  : list Channel :=
  match fetch n url with
  | Some text => PlaylistExtractor.parse_lines url (Py.splitlines text)
  | None => []
  end.

End Playlist.

(** ** Sections 5.9.1 to 5.12.1: filtering, searching and comparing *)
Module Cli.

(** The characters [str.strip()] removes, among the ASCII ones. *)
Definition is_space (c : ascii) : bool :=
  let n := Ascii.nat_of_ascii c in
  ((9 <=? n)%nat && (n <=? 13)%nat) || ((28 <=? n)%nat && (n <=? 32)%nat).

Fixpoint lstrip (s : string) : string :=
  match s with
  | EmptyString => EmptyString
  | String c t => if is_space c then lstrip t else s
  end.

Fixpoint rstrip (s : string) : string :=
  match s with
  | EmptyString => EmptyString
  | String c t =>
      match rstrip t with
      | EmptyString => if is_space c then EmptyString else String c EmptyString
      | r => String c r
      end
  end.

(** [s.strip()] *)
Definition strip (s : string) : string := lstrip (rstrip s).

(** [input(...).strip().lower()] *)
Definition read (typed : string) : string := Py.lower (strip typed).

(** An input made of white space only, or of nothing. *)
Fixpoint blank (s : string) : bool :=
  match s with
  | EmptyString => true
  | String c t => is_space c && blank t
  end.

(** The test of the loop of [filter_channels]. *)
Definition passes (group lang : string) (ch : Channel) : bool :=
  let g := Py.lower (TVG_GROUP ch) in
  let l := Py.lower (TVG_LANGUAGE ch) in
  (negb (Py.nonempty group) || Py.contains group g)
  && (negb (Py.nonempty lang) || Py.contains lang l).

(** [filter_channels]: the list [filtered], for what the user typed at the
    two prompts. *)
Definition filter_channels (typed_group typed_lang : string) (channels : list Channel)
  : list Channel :=
  List.filter (passes (read typed_group) (read typed_lang)) channels.

(** What is printed: the first 20. *)
Definition shown (results : list Channel) : list Channel := take 20 results.

(** [export_filtered_channels_to_csv]: the rows handed to the writer;
    [None] when nothing matches and the function returns before opening
    the file. *)
Definition export_filtered_channels_to_csv (typed_group typed_lang : string)
           (channels : list Channel) : option (list Channel) :=
  match filter_channels typed_group typed_lang channels with
  | [] => None
  | filtered => Some filtered
  end.

(** The test of [search_channels] and of [find_channel]. *)
Definition hit (query : string) (ch : Channel) : bool :=
  Py.contains query (Py.lower (TVG_NAME ch)) || Py.contains query (Py.lower (TVG_ID ch)).

(** [search_channels]: the list [results]. *)
Definition search_channels (typed : string) (channels : list Channel) : list Channel :=
  List.filter (hit (read typed)) channels.

(** [find_channel] of [compare_channels]: [next(..., None)] over the same
    test, identifier first. *)
Definition find_channel (query : string) (channels : list Channel) : option Channel :=
  List.find (fun ch => Py.contains query (Py.lower (TVG_ID ch))
                       || Py.contains query (Py.lower (TVG_NAME ch))) channels.

(** [compare_channels]: the two channels that are printed side by side,
    [None] when one of them is not found. *)
Definition compare_channels (typed_1 typed_2 : string) (channels : list Channel)
  : option (Channel * Channel) :=
  match find_channel (read typed_1) channels, find_channel (read typed_2) channels with
  | Some ch1, Some ch2 => Some (ch1, ch2)
  | _, _ => None
  end.

End Cli.

(** ** Section 5.13.1: [generate_summary_dashboard] *)
Module Dashboard.

(** The replacement character U+FFFD, as its three bytes. *)
Definition replacement_character : string :=
  String "239"%char (String "191"%char (String "189"%char EmptyString)).

(** [clean]: on valid text the encoding round trip changes nothing, so
    what is left is the removal of the replacement character and the
    [strip]. *)
Definition clean (text : string) : string :=
  Cli.strip (Py.replace replacement_character "" text).

(** [counts.get(k)] on a dictionary in insertion order. *)
Fixpoint get {V : Type} (k : string) (d : list (string * V)) : option V :=
  match d with
  | [] => None
  | (k', v) :: rest => if String.eqb k' k then Some v else get k rest
  end.

(** [counts[g] = counts.get(g, 0) + 1] *)
Definition count_step (counts : list (string * nat)) (g : string) : list (string * nat) :=
  ODict.set g (default 0 (get g counts) + 1)%nat counts.

Definition count_labels (labels : list string) : list (string * nat) :=
  foldl count_step [] labels.

(** How often a label occurs. *)
Definition occurrences (g : string) (labels : list string) : nat :=
  List.length (List.filter (String.eqb g) labels).

(** What the dashboard shows: the total, the groups and the languages
    with their counts ([chart_labels] and [chart_data] are the keys and the
    values of the first dictionary, [lang_labels] and [lang_data] those of
    the second). *)
Record Summary := mkSummary {
  total : nat;
  group_counts : list (string * nat);
  language_counts : list (string * nat)
}.

Definition generate_summary_dashboard (channels : list Channel) : Summary :=
  let groups := map (fun ch => clean (TVG_GROUP ch)) channels in
  let languages := map (fun ch => clean (TVG_LANGUAGE ch)) channels in
  mkSummary (List.length channels) (count_labels groups) (count_labels languages).

End Dashboard.

(** ** Section 5.4.2: [format_html_table] *)
Module Html.

Definition quote : string := PlaylistExtractor.quote.
Definition nl : string := String "010"%char EmptyString.

(** [html.escape(s)] of the standard library, with its default
    [quote=True]: five replacements, the ampersand first. *)
Definition escape (s : string) : string :=
  Py.replace "'" "&#x27;"
    (Py.replace quote "&quot;"
       (Py.replace ">" "&gt;" (Py.replace "<" "&lt;" (Py.replace "&" "&amp;" s)))).

(** [esc]: [html.escape(str(text)) if text else ""], for a text and for a
    value that may be [None]. *)
Definition esc (text : string) : string :=
  if Py.nonempty text then escape text else "".

Definition esc_optional (text : option string) : string :=
  match text with
  | Some s => esc s
  | None => ""
  end.

(** ["yes" if ch.get("matched_epg_id") else "no"] *)
Definition matched (ch : Channel) : string :=
  if Py.truthy (matched_epg_id ch) then "yes" else "no".

(** The row appended for a channel: the f-string of the loop. *)
Definition row (ch : Channel) : string :=
  (
  nl ++ "        <tr data-group=" ++ quote ++ esc (TVG_GROUP ch) ++ quote ++
    " data-lang=" ++ quote ++ esc (TVG_LANGUAGE ch) ++ quote ++ " data-matched=" ++
    quote ++ matched ch ++ quote ++ ">" ++ nl ++ "            <td>" ++
    esc (TVG_ID ch) ++ "</td>" ++ nl ++ "            <td>" ++ esc (TVG_NAME ch) ++
    "</td>" ++ nl ++ "            <td><img src=" ++ quote ++ esc (TVG_LOGO ch) ++
    quote ++ " alt=" ++ quote ++ "logo" ++ quote ++ " width=" ++ quote ++ "50" ++
    quote ++ "></td>" ++ nl ++ "            <td>" ++ esc (TVG_GROUP ch) ++ "</td>" ++
    nl ++ "            <td class=" ++ quote ++ "url" ++ quote ++ "><div style=" ++
    quote ++ "word-wrap: break-word; white-space: normal; max-width: 300px;" ++
    quote ++ " title=" ++ quote ++ esc (TVG_URL ch) ++ quote ++ ">" ++
    esc (TVG_URL ch) ++ "</div></td>" ++ nl ++ "            <td>" ++
    esc_optional (matched_epg_id ch) ++ "</td>" ++ nl ++ "            <td>" ++
    esc (TVG_LANGUAGE ch) ++ "</td>" ++ nl ++ "            <td>" ++
    esc (source_url ch) ++ "</td>" ++ nl ++ "        </tr>" ++ nl ++ "        "
  )%string.

(** [format_html_table]: the f-string that is returned, with the rows
    joined. *)
Definition format_html_table (channels : list Channel) : string :=
  let rows := String.concat "" (map row channels) in
  (
  nl ++ "    <table border=" ++ quote ++ "1" ++ quote ++ " cellpadding=" ++ quote ++
    "5" ++ quote ++ " cellspacing=" ++ quote ++ "0" ++ quote ++ " data-sort=" ++
    quote ++ "asc" ++ quote ++ ">" ++ nl ++ "        <thead>" ++ nl ++
    "            <tr>" ++ nl ++ "                <th>TVG-ID</th>" ++ nl ++
    "                <th>Name</th>" ++ nl ++ "                <th>Logo</th>" ++ nl ++
    "                <th>Group</th>" ++ nl ++ "                <th>Stream URL</th>" ++
    nl ++ "                <th>Matched EPG</th>" ++ nl ++
    "                <th>Language</th>" ++ nl ++
    "                <th>Source URL</th>" ++ nl ++ "            </tr>" ++ nl ++
    "        </thead>" ++ nl ++ "        <tbody>" ++ nl ++ "            " ++ rows ++
    nl ++ "        </tbody>" ++ nl ++ "    </table>" ++ nl ++ "    "
  )%string.

(** The number of occurrences of a character. *)
Fixpoint count (c : ascii) (s : string) : nat :=
  match s with
  | EmptyString => O
  | String x t => ((if Ascii.eqb c x then 1 else 0) + count c t)%nat
  end.

(** A text in which every [c] is replaced by [new]. *)
Fixpoint substitute (c : ascii) (new : string) (s : string) : string :=
  match s with
  | EmptyString => EmptyString
  | String x t =>
      if Ascii.eqb c x then (new ++ substitute c new t)%string
      else String x (substitute c new t)
  end.

End Html.
(** * Properties *)

(** ** Deduplication *)
Section DeduplicatorFacts.
Import Deduplicator Examples.

(** The walk from any accumulator whose [seen] set holds exactly the
    identifiers of [unique]. *)
Lemma foldl_step_ids (chs : list Channel) :
  forall (seen : gset string) (unique : list Channel),
    (forall i, i ∈ seen <-> i ∈ ids unique) ->
    let r := foldl step (seen, unique) chs in
    (forall i, i ∈ r.1 <-> i ∈ ids r.2) /\
    (forall i, i ∈ ids r.2 <-> i ∈ ids unique \/ (i <> "" /\ i ∈ ids chs)).
Proof.
  induction chs as [|ch chs IH]; intros seen unique Hinv; simpl.
  - split; [exact Hinv|]. intros i. split; [auto|].
    intros [H|[_ H]]; [exact H|]. inversion H.
  - unfold step at 2. simpl.
    destruct (Py.nonempty (TVG_ID ch)) eqn:Hne; simpl.
    + case_bool_decide as Hin; simpl.
      * destruct (IH ({[TVG_ID ch]} ∪ seen) (unique ++ [ch])) as [H1 H2].
        { intros i. unfold ids. rewrite map_app, elem_of_app. simpl.
          rewrite elem_of_union, elem_of_singleton, list_elem_of_singleton.
          specialize (Hinv i). unfold ids in Hinv. tauto. }
        split; [exact H1|]. intros i. rewrite H2.
        unfold ids. rewrite map_app, elem_of_app. simpl.
        rewrite list_elem_of_singleton, elem_of_cons.
        split.
        -- intros [[H|H]|[H3 H4]]; [tauto| |tauto].
           right. subst i. split; [|tauto].
           intros E. rewrite E in Hne. discriminate.
        -- intros [H|[H3 [H4|H4]]]; tauto.
      * destruct (IH seen unique Hinv) as [H1 H2].
        split; [exact H1|]. intros i. rewrite H2.
        unfold ids at 3. simpl. rewrite elem_of_cons.
        split; [tauto|]. intros [H|[H3 [H4|H4]]]; [tauto| |tauto].
        left. subst i. apply Hinv. exact Hin.
    + destruct (IH seen unique Hinv) as [H1 H2].
      split; [exact H1|]. intros i. rewrite H2.
      unfold ids at 3. simpl. rewrite elem_of_cons.
      split; [tauto|]. intros [H|[H3 [H4|H4]]]; [tauto| |tauto].
      subst i. destruct (TVG_ID ch); [congruence|discriminate].
Qed.

(** Every kept record is a record of the input. *)
Lemma foldl_step_subset (chs : list Channel) :
  forall (acc : gset string * list Channel) (ch : Channel),
    ch ∈ (foldl step acc chs).2 -> ch ∈ acc.2 \/ ch ∈ chs.
Proof.
  induction chs as [|c chs IH]; intros [seen unique] ch; simpl; [auto|].
  intros H. apply IH in H. rewrite elem_of_cons.
  destruct H as [H|H]; [|tauto].
  unfold step in H.
  destruct (Py.nonempty (TVG_ID c) && bool_decide (TVG_ID c ∉ seen)); simpl in H.
  - apply elem_of_app in H. rewrite list_elem_of_singleton in H. tauto.
  - tauto.
Qed.

(** C1, as the specification states it, fails: of two records sharing the
    identifier bbc1 and one record with an empty identifier, the record
    with the empty identifier is dropped and one record is left, not two. *)
Lemma C1_empty_identifier_dropped :
  no_id ∈ [bbc1_first; bbc1_second; no_id] /\ TVG_ID no_id = "" /\
  (no_id ∉ deduplicate_channels [bbc1_first; bbc1_second; no_id]) /\
  List.length (deduplicate_channels [bbc1_first; bbc1_second; no_id]) <> 2.
Proof.
  split; [set_solver|]. split; [reflexivity|].
  assert (deduplicate_channels [bbc1_first; bbc1_second; no_id] = [bbc1_first]) as ->
    by (vm_compute; reflexivity).
  split; [|simpl; lia].
  intros H. apply list_elem_of_singleton in H. discriminate.
Qed.

(** C1, amended: for every input channel list the Deduplicator drops every
    channel whose identifier is empty: the identifiers of the output are
    exactly the non-empty identifiers of the input, and every output
    record is an input record. The input with two records sharing bbc1
    and one record with an empty identifier yields exactly 1 record. *)
Theorem C1_deduplicate_drops_empty_identifiers :
  (forall (chs : list Channel) (i : string),
      i ∈ ids (deduplicate_channels chs) <-> i <> "" /\ i ∈ ids chs) /\
  (forall (chs : list Channel) (ch : Channel),
      ch ∈ deduplicate_channels chs -> ch ∈ chs /\ TVG_ID ch <> "") /\
  deduplicate_channels [bbc1_first; bbc1_second; no_id] = [bbc1_first].
Proof.
  assert (forall chs i, i ∈ ids (deduplicate_channels chs) <-> i <> "" /\ i ∈ ids chs) as Hids.
  { intros chs i. unfold deduplicate_channels.
    destruct (foldl_step_ids chs ∅ []) as [_ H2].
    - intros j. unfold ids. simpl. set_solver.
    - simpl in H2. rewrite H2. unfold ids at 1. simpl.
      split; [intros [H|H]; [inversion H|exact H]|auto]. }
  split; [exact Hids|]. split.
  - intros chs ch Hin. split.
    + apply foldl_step_subset in Hin. simpl in Hin.
      destruct Hin as [H|H]; [inversion H|exact H].
    + assert (TVG_ID ch ∈ ids (deduplicate_channels chs)) as H
        by (unfold ids; apply list_elem_of_fmap; eauto).
      apply Hids in H. tauto.
  - vm_compute. reflexivity.
Qed.

(** The record that is kept in the example is a record of the input with
    an identifier. *)
Lemma C1_example_kept_record :
  bbc1_first ∈ [bbc1_first; bbc1_second; no_id] /\ TVG_ID bbc1_first <> "".
Proof.
  destruct C1_deduplicate_drops_empty_identifiers as (_ & Hkept & Hexample).
  apply Hkept. rewrite Hexample. apply list_elem_of_here.
Defined.

End DeduplicatorFacts.

(** ** URL validation *)
Section ValidatorFacts.
Import Validator.
Variables (net : Network) (timestamp : string).

(** *** The store after one record *)

Lemma history_append_eq url r d :
  history_of (append_history url r d) url = history_of d url ++ [r].
Proof. unfold history_of, append_history. simpl. by rewrite lookup_insert_eq. Qed.

Lemma history_append_ne url u r d :
  u <> url -> history_of (append_history url r d) u = history_of d u.
Proof.
  intros Hne. unfold history_of, append_history. simpl.
  by rewrite lookup_insert_ne.
Qed.

Lemma history_set_last url u ls d :
  history_of (set_last_status url ls d) u = history_of d u.
Proof. reflexivity. Qed.

Lemma history_on_response url code elapsed st :
  history_of (data (on_response timestamp url code elapsed st)) url
  = history_of (data st) url ++ [Status timestamp code (response_ok code) elapsed].
Proof. unfold on_response. simpl. rewrite history_set_last. apply history_append_eq. Qed.

Lemma history_on_exception url message attempt st :
  history_of (data (on_exception timestamp url message attempt st)) url
  = history_of (data st) url
    ++ [ErrorLog timestamp (ErrorClassifier.categorize_error message) message].
Proof. unfold on_exception. simpl. rewrite history_set_last. apply history_append_eq. Qed.

Lemma last_on_response url code elapsed st :
  last_status (data (on_response timestamp url code elapsed st)) !! url
  = Some (mkLastStatus (Some (response_ok code)) timestamp (Some elapsed) None None).
Proof. unfold on_response. simpl. by rewrite lookup_insert_eq. Qed.

Lemma last_on_exception url message attempt st :
  last_status (data (on_exception timestamp url message attempt st)) !! url
  = Some (mkLastStatus (Some false) timestamp None
            (Some (ErrorClassifier.categorize_error message)) (Some message)).
Proof. unfold on_exception. simpl. by rewrite lookup_insert_eq. Qed.

(** *** What a step leaves alone: the other URLs, and the URL lists *)

Lemma untouched_trans u d1 d2 d3 :
  untouched u d1 d2 -> untouched u d2 d3 -> untouched u d1 d3.
Proof. unfold untouched. intros [H1 H2] [H3 H4]. split; congruence. Qed.

Lemma same_urls_trans d1 d2 d3 : same_urls d1 d2 -> same_urls d2 d3 -> same_urls d1 d3.
Proof. unfold same_urls. intros [-> ->] [-> ->]. done. Qed.

Lemma on_response_untouched url u code elapsed st :
  u <> url -> untouched u (data st) (data (on_response timestamp url code elapsed st)).
Proof.
  intros Hne. unfold untouched, on_response. simpl. split.
  - by rewrite lookup_insert_ne.
  - by rewrite lookup_insert_ne.
Qed.

Lemma on_exception_untouched url u message attempt st :
  u <> url -> untouched u (data st) (data (on_exception timestamp url message attempt st)).
Proof.
  intros Hne. unfold untouched, on_exception. simpl. split.
  - by rewrite lookup_insert_ne.
  - by rewrite lookup_insert_ne.
Qed.

Lemma retry_untouched url u attempts :
  u <> url -> forall st,
    untouched u (data st) (data (retry net timestamp url attempts st).1) /\
    same_urls (data st) (data (retry net timestamp url attempts st).1).
Proof.
  intros Hne. induction attempts as [|a rest IH]; intros st; simpl.
  - by repeat split.
  - destruct (net (requests_made st) url) as [code elapsed|message].
    + destruct (response_ok code); simpl.
      * split; [by apply on_response_untouched|by split].
      * destruct (IH (on_response timestamp url code elapsed st)) as [H1 H2]. split.
        -- eapply untouched_trans; [|exact H1]. by apply on_response_untouched.
        -- eapply same_urls_trans; [|exact H2]. by split.
    + destruct (IH (on_exception timestamp url message a st)) as [H1 H2]. split.
      * eapply untouched_trans; [|exact H1]. by apply on_exception_untouched.
      * eapply same_urls_trans; [|exact H2]. by split.
Qed.

Lemma suggest_mirror_untouched url u d :
  untouched u d (MirrorAdvisor.suggest_mirror url d) /\
  same_urls d (MirrorAdvisor.suggest_mirror url d).
Proof.
  unfold MirrorAdvisor.suggest_mirror.
  generalize MirrorAdvisor.MIRROR_MAP. intros items. revert d.
  induction items as [|[key mirror] items IH]; intros d; simpl.
  - by repeat split.
  - destruct (Py.contains key url).
    + destruct (IH (set_mirror url (Py.replace key mirror url) d)) as [[H1 H2] [H3 H4]].
      repeat split; assumption.
    + apply IH.
Qed.

Lemma validate_url_untouched url u st :
  u <> url ->
  untouched u (data st) (data (validate_url net timestamp st url)) /\
  same_urls (data st) (data (validate_url net timestamp st url)).
Proof.
  intros Hne. unfold validate_url.
  pose proof (retry_untouched url u (seq 0 3) Hne (count_checked st)) as [H1 H2].
  destruct (retry net timestamp url (seq 0 3) (count_checked st)) as [st' success].
  simpl in H1, H2. destruct success; [by split|]. simpl.
  destruct (suggest_mirror_untouched url u (data st')) as [H3 H4]. split.
  - eapply untouched_trans; [exact H1|exact H3].
  - eapply same_urls_trans; [exact H2|exact H4].
Qed.

Lemma validate_url_same_urls url st :
  same_urls (data st) (data (validate_url net timestamp st url)).
Proof.
  unfold validate_url.
  assert (forall attempts s,
             same_urls (data s) (data (retry net timestamp url attempts s).1)) as Hretry.
  { induction attempts as [|a rest IH]; intros s; simpl; [by split|].
    destruct (net (requests_made s) url) as [code elapsed|message].
    - destruct (response_ok code); simpl; [by split|].
      eapply same_urls_trans; [|apply IH]. by split.
    - eapply same_urls_trans; [|apply IH]. by split. }
  specialize (Hretry (seq 0 3) (count_checked st)).
  destruct (retry net timestamp url (seq 0 3) (count_checked st)) as [st' success].
  simpl in Hretry. destruct success; [exact Hretry|]. simpl.
  eapply same_urls_trans; [exact Hretry|apply (suggest_mirror_untouched url url)].
Qed.

Lemma foldl_validate_same_urls urls :
  forall st, same_urls (data st) (data (foldl (validate_url net timestamp) st urls)).
Proof.
  induction urls as [|url urls IH]; intros st; simpl; [by split|].
  eapply same_urls_trans; [apply validate_url_same_urls|apply IH].
Qed.

Lemma foldl_validate_untouched urls u :
  u ∉ urls -> forall st,
    untouched u (data st) (data (foldl (validate_url net timestamp) st urls)).
Proof.
  induction urls as [|url urls IH]; intros Hnotin st; simpl; [by split|].
  apply not_elem_of_cons in Hnotin as [Hne Hnotin].
  eapply untouched_trans; [|apply IH; exact Hnotin].
  by apply validate_url_untouched.
Qed.

(** The two categories, one after the other, are one walk over
    [urls_of]. *)
Lemma pass_is_one_walk (d : Data) :
  foldl (validate_category net timestamp) (initial d) [playlist_urls; epg_urls]
  = foldl (validate_url net timestamp) (initial d) (urls_of d).
Proof.
  unfold urls_of. rewrite foldl_app. simpl. unfold validate_category. simpl.
  destruct (foldl_validate_same_urls (playlist_urls d) (initial d)) as [_ ->].
  reflexivity.
Qed.

(** *** The retry loop on a URL that succeeds *)

Lemma retry_succeeds_at url code elapsed :
  response_ok code = true ->
  forall attempts k st,
    k < List.length attempts ->
    (forall j, j < k -> attempt_ok (net (requests_made st + j) url) = false) ->
    net (requests_made st + k) url = Response code elapsed ->
    exists failures st',
      retry net timestamp url attempts st = (st', true) /\
      List.length failures = k /\
      forallb is_failure failures = true /\
      history_of (data st') url
      = history_of (data st) url ++ failures ++ [Status timestamp code true elapsed] /\
      last_status (data st') !! url
      = Some (mkLastStatus (Some true) timestamp (Some elapsed) None None).
Proof.
  intros Hok. induction attempts as [|a rest IH]; intros k st Hk Hfail Hnet;
    simpl in Hk; [lia|].
  destruct k as [|k].
  - rewrite Nat.add_0_r in Hnet. simpl. rewrite Hnet, Hok.
    exists [], (count_alive (on_response timestamp url code elapsed st)).
    change (data (count_alive (on_response timestamp url code elapsed st)))
      with (data (on_response timestamp url code elapsed st)).
    repeat split.
    + rewrite history_on_response, Hok. reflexivity.
    + rewrite last_on_response, Hok. reflexivity.
  - pose proof (Hfail 0 ltac:(lia)) as H0. rewrite Nat.add_0_r in H0.
    simpl. destruct (net (requests_made st) url) as [c e|message] eqn:Hfirst;
      simpl in H0.
    + rewrite H0.
      destruct (IH k (on_response timestamp url c e st)) as (fs & st' & Hr & Hl & Hf & Hh & Hs).
      * lia.
      * intros j Hj. simpl. replace (S (requests_made st + j)) with (requests_made st + S j) by lia.
        apply Hfail. lia.
      * simpl. replace (S (requests_made st + k)) with (requests_made st + S k) by lia.
        exact Hnet.
      * exists (Status timestamp c false e :: fs), st'.
        repeat split; [exact Hr|simpl; lia|simpl; exact Hf| |exact Hs].
        rewrite Hh, history_on_response, H0, <- app_assoc. reflexivity.
    + destruct (IH k (on_exception timestamp url message a st)) as (fs & st' & Hr & Hl & Hf & Hh & Hs).
      * lia.
      * intros j Hj. simpl. replace (S (requests_made st + j)) with (requests_made st + S j) by lia.
        apply Hfail. lia.
      * simpl. replace (S (requests_made st + k)) with (requests_made st + S k) by lia.
        exact Hnet.
      * exists (ErrorLog timestamp (ErrorClassifier.categorize_error message) message :: fs), st'.
        repeat split; [exact Hr|simpl; lia|simpl; exact Hf| |exact Hs].
        rewrite Hh, history_on_exception, <- app_assoc. reflexivity.
Qed.

(** One visit of a URL that succeeds on its attempt number [S k]. *)
Lemma validate_url_succeeds_at url code elapsed k st :
  k < 3 ->
  (forall j, j < k -> attempt_ok (net (requests_made st + j) url) = false) ->
  net (requests_made st + k) url = Response code elapsed ->
  response_ok code = true ->
  exists failures,
    List.length failures = k /\
    forallb is_failure failures = true /\
    history_of (data (validate_url net timestamp st url)) url
    = history_of (data st) url ++ failures ++ [Status timestamp code true elapsed] /\
    last_status (data (validate_url net timestamp st url)) !! url
    = Some (mkLastStatus (Some true) timestamp (Some elapsed) None None).
Proof.
  intros Hk Hfail Hnet Hok.
  destruct (retry_succeeds_at url code elapsed Hok (seq 0 3) k (count_checked st))
    as (fs & st' & Hr & Hl & Hf & Hh & Hs); [simpl; lia|exact Hfail|exact Hnet|].
  exists fs. unfold validate_url. rewrite Hr. repeat split; assumption.
Qed.

(** *** Histories only grow *)

Lemma retry_history_grows url attempts :
  forall st, exists new,
    history_of (data (retry net timestamp url attempts st).1) url
    = history_of (data st) url ++ new.
Proof.
  induction attempts as [|a rest IH]; intros st; cbn [retry].
  - exists []. by rewrite app_nil_r.
  - destruct (net (requests_made st) url) as [code elapsed|message].
    + destruct (response_ok code) eqn:Hok; cbn [fst].
      * exists [Status timestamp code true elapsed].
        change (data (count_alive (on_response timestamp url code elapsed st)))
          with (data (on_response timestamp url code elapsed st)).
        rewrite history_on_response, Hok. reflexivity.
      * destruct (IH (on_response timestamp url code elapsed st)) as [new Hnew].
        exists (Status timestamp code false elapsed :: new).
        rewrite Hnew, history_on_response, Hok, <- app_assoc. reflexivity.
    + destruct (IH (on_exception timestamp url message a st)) as [new Hnew].
      exists (ErrorLog timestamp (ErrorClassifier.categorize_error message) message :: new).
      rewrite Hnew, history_on_exception, <- app_assoc. reflexivity.
Qed.

Lemma validate_url_history_grows url u st :
  exists new,
    history_of (data (validate_url net timestamp st url)) u = history_of (data st) u ++ new.
Proof.
  destruct (decide (u = url)) as [->|Hne].
  - unfold validate_url.
    destruct (retry_history_grows url (seq 0 3) (count_checked st)) as [new Hnew].
    destruct (retry net timestamp url (seq 0 3) (count_checked st)) as [st' success].
    simpl in Hnew. exists new. destruct success; [exact Hnew|]. simpl.
    destruct (suggest_mirror_untouched url url (data st')) as [[Hh _] _].
    unfold history_of in *. rewrite Hh. exact Hnew.
  - exists []. rewrite app_nil_r.
    destruct (validate_url_untouched url u st Hne) as [[Hh _] _].
    unfold history_of. by rewrite Hh.
Qed.

Lemma foldl_history_grows urls u :
  forall st, exists new,
    history_of (data (foldl (validate_url net timestamp) st urls)) u
    = history_of (data st) u ++ new.
Proof.
  induction urls as [|url urls IH]; intros st; simpl.
  - exists []. by rewrite app_nil_r.
  - destruct (IH (validate_url net timestamp st url)) as [new2 H2].
    destruct (validate_url_history_grows url u st) as [new1 H1].
    exists (new1 ++ new2). rewrite H2, H1, app_assoc. reflexivity.
Qed.

(** C7, amended: the pass visits a URL once per listing. A visit whose
    check succeeds on attempt [S k] (the attempts before it fail, by an
    error or by a response that is not ok) appends exactly [S k] records to
    the history of the URL, [k] failures and then one success, after what
    the earlier visits of the pass recorded and before what the later ones
    record, and the last status right after the visit has alive true. When
    the URL is not listed again, nothing follows these records and the
    last status after the pass has alive true; when it was not listed
    before, nothing of the pass precedes them. *)
Theorem C7_visit_that_succeeds_on_attempt_k_appends_k_records
        (d : Data) (before after : list string) (url : string)
        (k : nat) (code elapsed : Z)
        (st : State) (dead_links : gmap string LastStatus) :
  urls_of d = before ++ url :: after ->
  k < 3 ->
  let arrived := foldl (validate_url net timestamp) (initial d) before in
  let visited := validate_url net timestamp arrived url in
  (forall j, j < k -> attempt_ok (net (requests_made arrived + j) url) = false) ->
  net (requests_made arrived + k) url = Response code elapsed ->
  response_ok code = true ->
  validate_urls net timestamp (Some d) = Some (st, dead_links) ->
  exists earlier appended later,
    history_of (data arrived) url = history_of d url ++ earlier /\
    history_of (data visited) url = history_of (data arrived) url ++ appended /\
    history_of (data st) url = history_of (data visited) url ++ later /\
    List.length appended = S k /\
    forallb is_failure (take k appended) = true /\
    drop k appended = [Status timestamp code true elapsed] /\
    alive <$> last_status (data visited) !! url = Some (Some true) /\
    (url ∉ before -> earlier = []) /\
    (url ∉ after ->
     later = [] /\ alive <$> last_status (data st) !! url = Some (Some true)).
Proof.
  intros Hurls Hk arrived visited Hfail Hnet Hok Hrun.
  unfold validate_urls in Hrun. rewrite pass_is_one_walk, Hurls in Hrun.
  injection Hrun as Hst _. rewrite foldl_app in Hst. simpl in Hst.
  fold arrived in Hst. fold visited in Hst.
  destruct (validate_url_succeeds_at url code elapsed k arrived Hk Hfail Hnet Hok)
    as (fs & Hl & Hf & Hh & Hs).
  fold visited in Hh, Hs.
  destruct (foldl_history_grows before url (initial d)) as [earlier Hearlier].
  fold arrived in Hearlier.
  change (history_of (data (initial d)) url) with (history_of d url) in Hearlier.
  destruct (foldl_history_grows after url visited) as [later Hlater].
  rewrite Hst in Hlater.
  exists earlier, (fs ++ [Status timestamp code true elapsed]), later.
  split; [exact Hearlier|]. split; [exact Hh|]. split; [exact Hlater|].
  split; [rewrite length_app; simpl; lia|].
  split; [rewrite take_app_length'; [exact Hf|symmetry; exact Hl]|].
  split; [rewrite drop_app_length'; [reflexivity|symmetry; exact Hl]|].
  split; [rewrite Hs; reflexivity|]. split.
  - intros Hbefore.
    destruct (foldl_validate_untouched before url Hbefore (initial d)) as [Hb _].
    fold arrived in Hb. fold (history_of (data arrived) url) in Hb.
    fold (history_of (data (initial d)) url) in Hb.
    change (history_of (data (initial d)) url) with (history_of d url) in Hb.
    rewrite Hb in Hearlier. apply (app_inv_head (history_of d url)).
    rewrite app_nil_r. symmetry. exact Hearlier.
  - intros Hafter.
    destruct (foldl_validate_untouched after url Hafter visited) as [Ha1 Ha2].
    rewrite Hst in Ha1, Ha2. split.
    + fold (history_of (data st) url) in Ha1.
      fold (history_of (data visited) url) in Ha1.
      rewrite Ha1 in Hlater. apply (app_inv_head (history_of (data visited) url)).
      rewrite app_nil_r. symmetry. exact Hlater.
    + rewrite Ha2, Hs. reflexivity.
Qed.

(** *** Responses that are not ok *)

(** The loop over its first attempts, when they all fail: it does not
    leave, and the rest of the loop goes on from the state it reached. *)
Lemma retry_prefix url (pre : list nat) :
  forall st,
    (forall i, i < List.length pre ->
               attempt_ok (net (requests_made st + i) url) = false) ->
    exists reached,
      retry net timestamp url pre st = (reached, false) /\
      requests_made reached = requests_made st + List.length pre /\
      forall post,
        retry net timestamp url (pre ++ post) st = retry net timestamp url post reached.
Proof.
  induction pre as [|a pre IH]; intros st Hfail.
  - exists st. split; [reflexivity|]. split; [simpl; lia|]. intros post. reflexivity.
  - pose proof (Hfail 0 ltac:(simpl; lia)) as H0. rewrite Nat.add_0_r in H0.
    simpl. destruct (net (requests_made st) url) as [c e|m] eqn:Hfirst; simpl in H0.
    + rewrite H0.
      destruct (IH (on_response timestamp url c e st)) as (reached & Hr & Hn & Hpost).
      { intros i Hi. simpl.
        replace (S (requests_made st + i)) with (requests_made st + S i) by lia.
        apply Hfail. simpl. lia. }
      exists reached. split; [exact Hr|]. split; [simpl in Hn; lia|exact Hpost].
    + destruct (IH (on_exception timestamp url m a st)) as (reached & Hr & Hn & Hpost).
      { intros i Hi. simpl.
        replace (S (requests_made st + i)) with (requests_made st + S i) by lia.
        apply Hfail. simpl. lia. }
      exists reached. split; [exact Hr|]. split; [simpl in Hn; lia|exact Hpost].
Qed.

(** C10: a response with a status code that is not ok, at whatever
    attempt of a visit it arrives and whatever the attempts before it did
    (they failed, by an exception or by such a response, or the loop would
    have been left), uses up its attempt: from the state [reached] in which
    the attempt starts to the state [answered] in which it ends, one record
    of the response shape with ok false is appended (no error kind, no
    message), the last status has alive false, the summary (the dead
    counter and the error map with it) and the sleeps are unchanged, and
    the loop goes on from [answered] with the attempts that are left. A
    URL whose three attempts are answered so has three such records, no
    count, no sleep, alive false, and [suggest_mirror] runs on the
    resulting store. *)
Theorem C10_non_ok_responses_use_attempts_silently :
  (forall (url : string) (st : State) (j : nat) (code elapsed : Z),
      j < 3 ->
      (forall i, i < j -> attempt_ok (net (requests_made st + i) url) = false) ->
      net (requests_made st + j) url = Response code elapsed ->
      response_ok code = false ->
      exists reached answered,
        retry net timestamp url (seq 0 j) (count_checked st) = (reached, false) /\
        retry net timestamp url (seq 0 (S j)) (count_checked st) = (answered, false) /\
        retry net timestamp url (seq 0 3) (count_checked st)
        = retry net timestamp url (seq (S j) (2 - j)) answered /\
        history_of (data answered) url
        = history_of (data reached) url ++ [Status timestamp code false elapsed] /\
        last_status (data answered) !! url
        = Some (mkLastStatus (Some false) timestamp (Some elapsed) None None) /\
        summary answered = summary reached /\
        sleeps answered = sleeps reached /\
        requests_made reached = requests_made st + j /\
        requests_made answered = requests_made st + S j) /\
  (forall (url : string) (st : State) (c0 e0 c1 e1 c2 e2 : Z),
      net (requests_made st) url = Response c0 e0 -> response_ok c0 = false ->
      net (requests_made st + 1) url = Response c1 e1 -> response_ok c1 = false ->
      net (requests_made st + 2) url = Response c2 e2 -> response_ok c2 = false ->
      let st' := validate_url net timestamp st url in
      let recorded :=
        on_response timestamp url c2 e2
          (on_response timestamp url c1 e1
             (on_response timestamp url c0 e0 (count_checked st))) in
      history_of (data st') url
      = history_of (data st) url
        ++ [Status timestamp c0 false e0; Status timestamp c1 false e1;
            Status timestamp c2 false e2] /\
      dead (summary st') = dead (summary st) /\
      errors (summary st') = errors (summary st) /\
      alive_total (summary st') = alive_total (summary st) /\
      sleeps st' = sleeps st /\
      requests_made st' = requests_made st + 3 /\
      alive <$> last_status (data st') !! url = Some (Some false) /\
      data st' = MirrorAdvisor.suggest_mirror url (data recorded)).
Proof.
  split.
  - intros url st j code elapsed Hj Hfail Hnet Hok.
    destruct (retry_prefix url (seq 0 j) (count_checked st)) as (reached & Hr & Hn & Hpost).
    { rewrite length_seq. exact Hfail. }
    rewrite length_seq in Hn.
    change (requests_made (count_checked st)) with (requests_made st) in Hn.
    exists reached, (on_response timestamp url code elapsed reached).
    assert (forall rest,
               retry net timestamp url (j :: rest) reached
               = retry net timestamp url rest (on_response timestamp url code elapsed reached))
      as Hstep.
    { intros rest. simpl. rewrite Hn, Hnet, Hok. reflexivity. }
    split; [exact Hr|]. split.
    { rewrite seq_S, Hpost. simpl. rewrite Hn, Hnet, Hok. reflexivity. }
    split.
    { replace (seq 0 3) with (seq 0 j ++ j :: seq (S j) (2 - j))
        by (destruct j as [|[|[|j]]]; [reflexivity..|lia]).
      rewrite Hpost. apply Hstep. }
    split; [rewrite history_on_response, Hok; reflexivity|].
    split; [rewrite last_on_response, Hok; reflexivity|].
    repeat split; simpl; lia.
  - intros url st c0 e0 c1 e1 c2 e2 H0 Hok0 H1 Hok1 H2 Hok2 st' recorded.
    replace (requests_made st + 1) with (S (requests_made st)) in H1 by lia.
    replace (requests_made st + 2) with (S (S (requests_made st))) in H2 by lia.
    assert (retry net timestamp url (seq 0 3) (count_checked st) = (recorded, false)) as Hretry.
    { cbn [seq retry].
      change (requests_made (count_checked st)) with (requests_made st).
      rewrite H0, Hok0.
      change (requests_made (on_response timestamp url c0 e0 (count_checked st)))
        with (S (requests_made st)).
      rewrite H1, Hok1.
      change (requests_made (on_response timestamp url c1 e1
                (on_response timestamp url c0 e0 (count_checked st))))
        with (S (S (requests_made st))).
      rewrite H2, Hok2. reflexivity. }
    assert (st' = with_data (MirrorAdvisor.suggest_mirror url) recorded) as Hst'.
    { unfold st', validate_url. rewrite Hretry. reflexivity. }
    destruct (suggest_mirror_untouched url url (data recorded)) as [[Hh Hl] _].
    rewrite Hst'. cbn [with_data data summary sleeps requests_made].
    unfold history_of. rewrite Hh, Hl.
    fold (history_of (data recorded) url). unfold recorded.
    rewrite !history_on_response, last_on_response, Hok0, Hok1, Hok2, <- !app_assoc.
    repeat split. simpl. lia.
Qed.

(** *** Backoff *)

(** A URL whose three attempts raise sleeps after each of them, the third
    included. *)
Lemma three_errors_sleep_three_times (url : string) (st : State) (m0 m1 m2 : string) :
  net (requests_made st) url = Raises m0 ->
  net (requests_made st + 1) url = Raises m1 ->
  net (requests_made st + 2) url = Raises m2 ->
  sleeps (validate_url net timestamp st url) = sleeps st ++ [1; 2; 4].
Proof.
  intros H0 H1 H2.
  replace (requests_made st + 1) with (S (requests_made st)) in H1 by lia.
  replace (requests_made st + 2) with (S (S (requests_made st))) in H2 by lia.
  unfold validate_url. cbn [seq retry].
  change (requests_made (count_checked st)) with (requests_made st).
  rewrite H0.
  change (requests_made (on_exception timestamp url m0 0 (count_checked st)))
    with (S (requests_made st)).
  rewrite H1.
  change (requests_made (on_exception timestamp url m1 1
            (on_exception timestamp url m0 0 (count_checked st))))
    with (S (S (requests_made st))).
  rewrite H2. cbn [with_data sleeps on_exception count_checked].
  rewrite <- !app_assoc. reflexivity.
Qed.

(** No step of the loop sleeps unless an attempt raised: the trace grows
    by one delay per [error_log] record appended and by nothing else. *)
Lemma retry_sleeps_once_per_error (url : string) (attempts : list nat) :
  forall st,
    let st' := (retry net timestamp url attempts st).1 in
    exists delays,
      sleeps st' = sleeps st ++ delays /\
      dead (summary st') = dead (summary st) + List.length delays.
Proof.
  induction attempts as [|a rest IH]; intros st; simpl.
  - exists []. rewrite app_nil_r. split; [reflexivity|simpl; lia].
  - destruct (net (requests_made st) url) as [code elapsed|message].
    + destruct (response_ok code); simpl.
      * exists []. rewrite app_nil_r. split; [reflexivity|simpl; lia].
      * destruct (IH (on_response timestamp url code elapsed st)) as (ds & H1 & H2).
        exists ds. split; [exact H1|exact H2].
    + destruct (IH (on_exception timestamp url message a st)) as (ds & H1 & H2).
      exists (2 ^ a :: ds). split.
      * rewrite H1. simpl. rewrite <- app_assoc. reflexivity.
      * rewrite H2. simpl. lia.
Qed.

(** *** The error map *)

Lemma errors_logged_append (kind url : string) (r : StatusRecord)
      (h : gmap string (list StatusRecord)) :
  errors_logged kind (<[url := default [] (h !! url) ++ [r]]> h)
  = errors_logged kind h + (if is_error_of kind r then 1 else 0).
Proof.
  unfold errors_logged.
  set (f := fun (_ : string) (records : list StatusRecord) (acc : nat) =>
              acc + List.length (List.filter (is_error_of kind) records)).
  assert (forall (m : gmap string (list StatusRecord)) j1 j2 z1 z2 y,
             j1 <> j2 -> m !! j1 = Some z1 -> m !! j2 = Some z2 ->
             f j1 z1 (f j2 z2 y) = f j2 z2 (f j1 z1 y)) as Hcomm
      by (intros; unfold f; lia).
  destruct (h !! url) as [old|] eqn:Hlook; simpl.
  - rewrite <- insert_delete_eq.
    rewrite map_fold_insert_L; [|apply Hcomm|apply lookup_delete_eq].
    rewrite (map_fold_delete_L f 0 url old h); [|apply Hcomm|exact Hlook].
    unfold f. rewrite List.filter_app, length_app. simpl.
    destruct (is_error_of kind r); simpl; lia.
  - rewrite map_fold_insert_L; [|apply Hcomm|exact Hlook].
    unfold f. simpl. destruct (is_error_of kind r); simpl; lia.
Qed.

Lemma error_count_bump (kind error_type : string) (s : Summary) :
  default 0 (<[error_type := S (default 0 (errors s !! error_type))]> (errors s) !! kind)
  = error_count kind s + (if String.eqb error_type kind then 1 else 0).
Proof.
  unfold error_count. destruct (String.eqb_spec error_type kind) as [->|Hne].
  - rewrite lookup_insert_eq. simpl. lia.
  - rewrite lookup_insert_ne by exact Hne. lia.
Qed.

Lemma retry_errors_balance (kind url : string) (h0 : gmap string (list StatusRecord))
      (attempts : list nat) :
  forall st, errors_balance kind h0 st ->
             errors_balance kind h0 (retry net timestamp url attempts st).1.
Proof.
  induction attempts as [|a rest IH]; intros st Hbal; simpl; [exact Hbal|].
  destruct (net (requests_made st) url) as [code elapsed|message].
  - assert (errors_balance kind h0 (on_response timestamp url code elapsed st)) as Hbal'.
    { unfold errors_balance in *. unfold on_response. simpl.
      rewrite errors_logged_append. simpl. lia. }
    destruct (response_ok code); simpl; [exact Hbal'|apply IH; exact Hbal'].
  - apply IH. unfold errors_balance in *. unfold on_exception. simpl.
    rewrite errors_logged_append. unfold error_count at 1. simpl.
    rewrite error_count_bump. lia.
Qed.

Lemma suggest_mirror_history (url : string) (d : Data) :
  status_history (MirrorAdvisor.suggest_mirror url d) = status_history d.
Proof.
  unfold MirrorAdvisor.suggest_mirror.
  generalize MirrorAdvisor.MIRROR_MAP. intros items. revert d.
  induction items as [|[key mirror] items IH]; intros d; simpl; [reflexivity|].
  destruct (Py.contains key url); rewrite IH; reflexivity.
Qed.

Lemma validate_url_errors_balance (kind url : string)
      (h0 : gmap string (list StatusRecord)) (st : State) :
  errors_balance kind h0 st -> errors_balance kind h0 (validate_url net timestamp st url).
Proof.
  intros Hbal. unfold validate_url.
  pose proof (retry_errors_balance kind url h0 (seq 0 3) (count_checked st) Hbal) as H.
  destruct (retry net timestamp url (seq 0 3) (count_checked st)) as [st' success].
  simpl in H. destruct success; [exact H|].
  unfold errors_balance in *. simpl. rewrite suggest_mirror_history. exact H.
Qed.

(** C3, amended: for every validation pass and every error kind, the
    count of the kind in the summary's error map is the number of failure
    records of that kind that the pass appended to the histories, whatever
    became of the URL afterwards: the failures of a URL that later
    succeeds are counted like those of a URL that ends the pass dead. *)
Theorem C3_error_map_counts_every_failed_attempt
        (d : Data) (kind : string) (st : State) (dead_links : gmap string LastStatus) :
  validate_urls net timestamp (Some d) = Some (st, dead_links) ->
  errors_logged kind (status_history (data st))
  = errors_logged kind (status_history d) + error_count kind (summary st).
Proof.
  intros Hrun. unfold validate_urls in Hrun. rewrite pass_is_one_walk in Hrun.
  injection Hrun as <- _.
  assert (forall urls s, errors_balance kind (status_history d) s ->
            errors_balance kind (status_history d)
                           (foldl (validate_url net timestamp) s urls)) as Hwalk.
  { induction urls as [|url urls IH]; intros s Hs; simpl; [exact Hs|].
    apply IH. apply validate_url_errors_balance. exact Hs. }
  apply Hwalk. unfold errors_balance, error_count. simpl.
  rewrite lookup_empty. simpl. lia.
Qed.

(** *** Dead links *)

(** C8: after a validation pass the dead-link snapshot is the restriction
    of the last-status mapping to the entries whose alive is false: a URL
    is in the snapshot exactly when it is in the mapping with alive false
    (read with the default false of the lookup), and the snapshot maps it
    to the same entry. *)
Theorem C8_dead_links_are_the_not_alive_entries
        (d : Data) (st : State) (dead_links : gmap string LastStatus) :
  validate_urls net timestamp (Some d) = Some (st, dead_links) ->
  forall (u : string) (entry : LastStatus),
    dead_links !! u = Some entry
    <-> last_status (data st) !! u = Some entry /\ default false (alive entry) = false.
Proof.
  intros Hrun u entry. unfold validate_urls in Hrun. injection Hrun as <- <-.
  unfold dead_links_of. rewrite map_lookup_filter_Some. reflexivity.
Qed.

End ValidatorFacts.

(** ** URL validation on the worked examples *)
Section ValidatorExamples.
Import Validator Examples.

(** C3, as the specification states it, fails: on the flaky network the
    only URL fails once with a timeout and then succeeds. It ends the pass
    alive, and no URL is left without a success, yet the dead count is 1
    and the error map holds one Timeout. *)
Lemma C3_failures_of_a_url_that_succeeds_are_counted :
  exists st dead_links,
    validate_urls flaky noon (Some one_url) = Some (st, dead_links) /\
    alive <$> last_status (data st) !! the_url = Some (Some true) /\
    spec_dead_count (urls_of one_url) (status_history (data st)) = 0 /\
    dead (summary st) = 1 /\
    spec_error_count "Timeout" (urls_of one_url) (status_history (data st)) = 0 /\
    error_count "Timeout" (summary st) = 1.
Proof.
  eexists _, _. split; [reflexivity|]. vm_compute. repeat split.
Qed.

(** On the flaky network: the Timeout of the URL that ends alive is in the map. *)
Lemma C3_example_flaky_network :
  exists st dead_links,
    validate_urls flaky noon (Some one_url) = Some (st, dead_links) /\
    errors_logged "Timeout" (status_history (data st))
    = errors_logged "Timeout" (status_history one_url) + error_count "Timeout" (summary st).
Proof.
  eexists _, _. split; [reflexivity|].
  exact (C3_error_map_counts_every_failed_attempt flaky noon one_url "Timeout" _ _ eq_refl).
Defined.

(** C6: on a network that refuses every request the loop sleeps after
    each of the three failed attempts, for 1, 2 and 4 seconds: the third
    delay follows the final attempt, where the specification has the two
    delays before attempts 2 and 3 only. *)
Theorem C6_third_failure_is_followed_by_a_delay :
  sleeps (validate_url refusing noon (initial one_url) the_url) = [1; 2; 4] /\
  spec_delays_all_failed = [1; 2].
Proof. split; vm_compute; reflexivity. Qed.

(** C7, as the specification states it, fails: the URL is listed as a
    playlist and as a guide; its check succeeds on the first attempt of
    the pass, yet the pass appends four records, not one, and the last
    status afterwards has alive false. *)
Lemma C7_url_listed_in_both_lists :
  exists st dead_links,
    validate_urls up_once noon (Some both_lists) = Some (st, dead_links) /\
    attempt_ok (up_once 0 the_url) = true /\
    history_of both_lists the_url = [] /\
    history_of (data st) the_url
    = [Status noon 200 true 35; Status noon 404 false 20; Status noon 404 false 20;
       Status noon 404 false 20] /\
    List.length (history_of (data st) the_url) <> 1 /\
    alive <$> last_status (data st) !! the_url = Some (Some false).
Proof.
  eexists _, _. split; [reflexivity|]. vm_compute. repeat split. lia.
Qed.

(** On the flaky network the only visit of the URL succeeds on its second
    attempt: two records, nothing before and nothing after them. *)
Lemma C7_example_success_on_second_attempt :
  exists st dead_links appended,
    validate_urls flaky noon (Some one_url) = Some (st, dead_links) /\
    history_of (data st) the_url = history_of one_url the_url ++ appended /\
    List.length appended = 2 /\
    forallb is_failure (take 1 appended) = true /\
    drop 1 appended = [Status noon 200 true 35] /\
    alive <$> last_status (data st) !! the_url = Some (Some true).
Proof.
  eexists _, _.
  destruct (C7_visit_that_succeeds_on_attempt_k_appends_k_records
              flaky noon one_url [] [] the_url 1 200 35 _ _ eq_refl
              ltac:(lia)
              ltac:(intros j Hj; destruct j; [reflexivity|lia])
              eq_refl eq_refl eq_refl)
    as (earlier & appended & later & He & Hv & Hs & Hlen & Hf & Hd & _ & Hb & Ha).
  specialize (Hb ltac:(apply not_elem_of_nil)).
  destruct (Ha ltac:(apply not_elem_of_nil)) as [Hl Halive].
  exists appended. split; [reflexivity|].
  rewrite Hb, app_nil_r in He. rewrite Hl, app_nil_r in Hs.
  split; [rewrite Hs, Hv, He; reflexivity|].
  split; [exact Hlen|]. split; [exact Hf|]. split; [exact Hd|exact Halive].
Defined.

(** The URL answered with 404 is in the snapshot, under its last status. *)
Lemma C8_example_dead_link :
  exists st dead_links,
    validate_urls not_found noon (Some one_url) = Some (st, dead_links) /\
    (dead_links !! the_url = Some (mkLastStatus (Some false) noon (Some 20%Z) None None)
     <-> last_status (data st) !! the_url
         = Some (mkLastStatus (Some false) noon (Some 20%Z) None None)
         /\ default false (alive (mkLastStatus (Some false) noon (Some 20%Z) None None))
            = false).
Proof.
  eexists _, _. split; [reflexivity|].
  apply (C8_dead_links_are_the_not_alive_entries not_found noon one_url _ _ eq_refl).
Defined.

(** Three answers with 404: three records, no count, no sleep, a mirror
    suggested. A 404 on the second attempt, after a timeout on the first:
    the one count and the one sleep are those of the timeout. *)
Lemma C10_example_not_found :
  (let st' := validate_url not_found noon (initial one_url) the_url in
   history_of (data st') the_url
   = [Status noon 404 false 20; Status noon 404 false 20; Status noon 404 false 20] /\
   dead (summary st') = 0 /\
   errors (summary st') = ∅ /\
   sleeps st' = [] /\
   requests_made st' = 3 /\
   alive <$> last_status (data st') !! the_url = Some (Some false) /\
   mirror_suggestions (data st') !! the_url = Some "http://epgshare01.online/list.m3u") /\
  (exists reached answered,
      retry timeout_then_not_found noon the_url (seq 0 1) (count_checked (initial one_url))
      = (reached, false) /\
      retry timeout_then_not_found noon the_url (seq 0 2) (count_checked (initial one_url))
      = (answered, false) /\
      history_of (data answered) the_url
      = history_of (data reached) the_url ++ [Status noon 404 false 20] /\
      summary answered = summary reached /\
      sleeps answered = sleeps reached /\
      dead (summary reached) = 1 /\
      sleeps reached = [1]).
Proof.
  destruct (C10_non_ok_responses_use_attempts_silently not_found noon) as [_ Hthree].
  destruct (C10_non_ok_responses_use_attempts_silently timeout_then_not_found noon)
    as [Hany _].
  split.
  - destruct (Hthree the_url (initial one_url) 404%Z 20%Z 404%Z 20%Z 404%Z 20%Z
                eq_refl eq_refl eq_refl eq_refl eq_refl eq_refl)
      as (Hh & Hd & He & _ & Hs & Hr & Ha & Hm).
    intros st'.
    split; [exact Hh|]. split; [exact Hd|]. split; [exact He|]. split; [exact Hs|].
    split; [exact Hr|]. split; [exact Ha|].
    unfold st'. rewrite Hm. vm_compute. reflexivity.
  - destruct (Hany the_url (initial one_url) 1 404%Z 20%Z ltac:(lia)
                ltac:(intros i Hi; destruct i; [reflexivity|lia])
                eq_refl eq_refl)
      as (reached & answered & Hr & Ha & _ & Hh & _ & Hsum & Hsl & _).
    exists reached, answered.
    split; [exact Hr|]. split; [exact Ha|]. split; [exact Hh|].
    split; [exact Hsum|]. split; [exact Hsl|].
    assert (reached = (retry timeout_then_not_found noon the_url (seq 0 1)
                         (count_checked (initial one_url))).1) as -> by (rewrite Hr; reflexivity).
    split; vm_compute; reflexivity.
Defined.

End ValidatorExamples.

(** ** Playlist extraction *)
Section PlaylistFacts.
Import PlaylistExtractor Examples.

(** C5, as the specification states it, fails: the first header of the
    playlist is followed by another header line, and the record of the
    first header has that header line as its stream URL. *)
Lemma C5_marker_line_taken_as_stream_url :
  Py.startswith "#EXTINF" (header "b" "B") = true /\
  extract_m3u_metadata (serve two_headers) (Some one_url)
  = Some [ mkChannel "a" "A" "" "" (header "b" "B") "Unknown" the_url None;
           mkChannel "b" "B" "" "" "http://x/b.m3u8" "Unknown" the_url None ].
Proof. split; vm_compute; reflexivity. Qed.

(** C5, amended: the records of a playlist are those of its header lines
    that have a name or an identifier, and the stream URL of the record of
    the header at index i is the line at index i+1 whatever that line is,
    another marker line included, and the empty string when the header is
    the last line. *)
Theorem C5_stream_url_is_the_next_line (url : string) (lines : list string) (ch : Channel) :
  ch ∈ parse_lines url lines
  <-> exists (i : nat) (info : string),
      lines !! i = Some info /\
      Py.startswith "#EXTINF" info = true /\
      Py.nonempty (group_or_empty (attribute "tvg-name" info))
      || Py.nonempty (group_or_empty (attribute "tvg-id" info)) = true /\
      ch = mkChannel (group_or_empty (attribute "tvg-id" info))
                     (group_or_empty (attribute "tvg-name" info))
                     (group_or_empty (attribute "tvg-logo" info))
                     (group_or_empty (attribute "group-title" info))
                     (match lines !! S i with Some next => next | None => "" end)
                     "Unknown" url None.
Proof.
  unfold parse_lines. rewrite list_elem_of_In, in_flat_map. split.
  - intros (i & _ & Hin). unfold visit_line in Hin.
    destruct (lines !! i) as [info|] eqn:Hinfo; [|destruct Hin].
    destruct (Py.startswith "#EXTINF" info) eqn:Hstart; [|destruct Hin].
    unfold channel_at in Hin. simpl in Hin.
    destruct (Py.nonempty (group_or_empty (attribute "tvg-name" info))
              || Py.nonempty (group_or_empty (attribute "tvg-id" info))) eqn:Hkeep;
      [|destruct Hin].
    destruct Hin as [<-|[]]. exists i, info. repeat split; try assumption.
    replace (i + 1) with (S i) by lia. reflexivity.
  - intros (i & info & Hinfo & Hstart & Hkeep & ->). exists i. split.
    + apply in_seq. apply lookup_lt_Some in Hinfo. lia.
    + unfold visit_line. rewrite Hinfo, Hstart. unfold channel_at. simpl.
      rewrite Hkeep. left. replace (i + 1) with (S i) by lia. reflexivity.
Qed.

End PlaylistFacts.

(** ** Guide extraction *)
Section GuideFacts.
Import GuideExtractor Examples.

Lemma keys_set {V : Type} (k k' : string) (v : V) (d : list (string * V)) :
  k' ∈ ODict.keys (ODict.set k v d) <-> k' = k \/ k' ∈ ODict.keys d.
Proof.
  unfold ODict.keys. induction d as [|[k0 v0] d IH]; simpl.
  - rewrite list_elem_of_singleton. split; [auto|].
    intros [H|H]; [exact H|inversion H].
  - destruct (String.eqb_spec k0 k) as [->|Hne]; simpl.
    + rewrite !elem_of_cons. tauto.
    + rewrite !elem_of_cons, IH. tauto.
Qed.




End GuideFacts.

(** ** The audit *)
Section AuditorFacts.
Import Auditor Examples.





(** The whole audit is such a walk from the initial state. *)
Lemma audit_is_a_walk (epg_data : list (string * list GuideEntry)) :
  walks_to initial (audit_epg_metadata epg_data).
Proof.
  unfold audit_epg_metadata.
  assert (forall a, walks_to initial a -> walks_to initial (foldl visit_source a epg_data)) as H.
  { induction epg_data as [|item items IH]; intros a Ha; simpl; [exact Ha|].
    apply IH. apply walk_source. exact Ha. }
  apply H. apply walk_here.
Qed.





End AuditorFacts.

(** ** The matcher *)
Section DifflibFacts.
Import Difflib.

Lemma scan_b_starts_below (bound : nat) (sa : list ascii) (i : nat) (sb : list ascii) :
  i < bound -> forall j best,
    starts_below bound best -> starts_below bound (scan_b sa i j sb best).
Proof.
  intros Hi. induction sb as [|y tb IH]; intros j best Hbest; simpl; [exact Hbest|].
  apply IH. destruct (best.2 <? common_prefix sa (y :: tb))%nat; [|exact Hbest].
  right. exact Hi.
Qed.

Lemma scan_a_starts_below (b : list ascii) (sa : list ascii) :
  forall i best,
    starts_below (i + List.length sa) best ->
    starts_below (i + List.length sa) (scan_a i sa b best).
Proof.
  induction sa as [|x ta IH]; intros i best Hbest; simpl in *; [exact Hbest|].
  replace (i + S (List.length ta)) with (S i + List.length ta) in * by lia.
  apply IH. apply scan_b_starts_below; [lia|exact Hbest].
Qed.

Lemma find_longest_match_starts_in_a (a b : list ascii) (i j k : nat) :
  find_longest_match a b = (i, j, k) -> k <> 0 -> i < List.length a.
Proof.
  intros Hfind Hk. unfold find_longest_match in Hfind.
  pose proof (scan_a_starts_below b a 0 (0, 0, 0) ltac:(left; reflexivity)) as H.
  rewrite Hfind in H. destruct H as [H|H]; simpl in H; [congruence|exact H].
Qed.

(** The depth allowed to [matches] is enough: any larger one gives the
    same total. *)
Lemma matches_depth_enough (n : nat) :
  forall m a b,
    List.length a < n -> List.length a < m -> matches_upto n a b = matches_upto m a b.
Proof.
  induction n as [|n IH]; intros m a b Hn Hm; [lia|].
  destruct m as [|m]; [lia|]. simpl.
  destruct (find_longest_match a b) as [[i j] k] eqn:Hfind.
  destruct (k =? 0)%nat eqn:Hk; [reflexivity|].
  apply Nat.eqb_neq in Hk.
  pose proof (find_longest_match_starts_in_a a b i j k Hfind Hk) as Hi.
  rewrite (IH m (take i a) (take j b)), (IH m (drop (i + k) a) (drop (j + k) b));
    try reflexivity; rewrite ?length_take, ?length_drop; lia.
Qed.

End DifflibFacts.

(** ** Reconciliation *)
Section ReconcilerFacts.
Import Reconciler Examples.

(** The script never binds the name [difflib]. *)
Lemma difflib_is_not_a_global : load_global module_globals "difflib" = Raise (NameError "difflib").
Proof. vm_compute. reflexivity. Qed.

(** So every call of [fuzzy_match_channel_name] in the script ends in a
    [NameError]. *)
Lemma fuzzy_match_always_raises (channel_name : string) (epg_entries : list GuideEntry)
      (threshold : Q) :
  fuzzy_match_channel_name module_globals channel_name epg_entries threshold
  = Raise (NameError "difflib").
Proof. unfold fuzzy_match_channel_name. rewrite difflib_is_not_a_global. reflexivity. Qed.

(** And [smart_match] ends in it at the first channel that has a name. *)
Lemma match_loop_raises (epg_entries : list GuideEntry) (channels : list Channel) :
  forall matched,
    Exists (fun ch => Py.nonempty (TVG_NAME ch) = true) channels ->
    match_loop module_globals epg_entries channels matched = Raise (NameError "difflib").
Proof.
  induction channels as [|ch rest IH]; intros matched Hex; [inversion Hex|].
  cbn [match_loop]. destruct (Py.nonempty (TVG_NAME ch)) eqn:Hname; cbn [negb].
  - rewrite fuzzy_match_always_raises. reflexivity.
  - apply Exists_cons in Hex as [Hex|Hex]; [congruence|].
    rewrite (IH matched Hex). reflexivity.
Qed.

(** The matcher itself, reached through a bound name, on the example of
    the specification: no match at 0.85, BBC One HD at 0.5. *)
Lemma matcher_on_the_example :
  fuzzy_match_channel_name globals_with_difflib "BBC One" guide_pool (17 # 20) = Ok None /\
  fuzzy_match_channel_name globals_with_difflib "BBC One" guide_pool (1 # 2)
  = Ok (Some "BBC One HD").
Proof. split; vm_compute; reflexivity. Qed.

(** The matcher orders candidates of equal score by the names themselves:
    of abd and abe, equally close to abc, it returns abe, the second of
    the pool. *)
Lemma matcher_breaks_ties_by_name :
  Difflib.ratio (Difflib.chars "abd") (Difflib.chars "abc")
  = Difflib.ratio (Difflib.chars "abe") (Difflib.chars "abc") /\
  fuzzy_match_channel_name globals_with_difflib "abc" tied_pool (1 # 2) = Ok (Some "abe").
Proof. split; vm_compute; reflexivity. Qed.

(** C2: with the globals of the script, matching the channel BBC One
    against the pool of BBC One HD and ITV1 ends in a NameError at either
    threshold, where the specification has no match at 0.85 and the match
    BBC One HD at 0.5; [smart_match] on that channel ends the same way and
    annotates nothing. *)
Theorem C2_fuzzy_match_raises_name_error :
  fuzzy_match_channel_name module_globals "BBC One" guide_pool (17 # 20)
  = Raise (NameError "difflib") /\
  fuzzy_match_channel_name module_globals "BBC One" guide_pool (1 # 2)
  = Raise (NameError "difflib") /\
  smart_match module_globals [bbc1_first] [("http://g/a.xml", guide_pool)]
  = Raise (NameError "difflib").
Proof.
  split; [apply fuzzy_match_always_raises|]. split; [apply fuzzy_match_always_raises|].
  unfold smart_match. apply match_loop_raises. constructor. reflexivity.
Qed.

End ReconcilerFacts.


(** ** The examples of the specification, run on the model *)
Section WorkedExamples.
Import Examples.

(** A header with the four attributes, followed by a stream URL. *)
Example playlist_record :
  PlaylistExtractor.parse_lines "http://x/a.m3u"
    [ full_header; "http://x/bbc1.m3u8" ]
  = [mkChannel "bbc1" "BBC One" "x.png" "UK" "http://x/bbc1.m3u8" "Unknown" "http://x/a.m3u" None].
Proof. vm_compute. reflexivity. Qed.

(** A header that is the last line of the payload has an empty stream URL. *)
Example playlist_header_last :
  PlaylistExtractor.parse_lines "http://x/a.m3u" [header "a" "A"]
  = [mkChannel "a" "A" "" "" "" "Unknown" "http://x/a.m3u" None].
Proof. vm_compute. reflexivity. Qed.

(** The guide extractor keeps the channel with an identifier and a name,
    drops the one with neither, leaves the broken URL out and keeps the
    URL without channels with an empty group. *)
Example guide_groups :
  GuideExtractor.extract_epg_metadata guides (Some guide_urls)
  = Some [ ("http://g/a.xml",
            [mkGuideEntry (Some "bbc1") (Some "BBC One HD") "http://g/a.xml" "EPG" "unknown"]);
           ("http://g/empty.xml", []) ].
Proof. vm_compute. reflexivity. Qed.

Example classified_errors :
  map ErrorClassifier.categorize_error
      [ "Read timed out. (read timeout=10)"; "Temporary failure in name resolution";
        "Connection refused"; "Max retries exceeded: timeout on connection"; "TLS alert" ]
  = [ "Timeout"; "DNSFailure"; "ConnectionError"; "Timeout"; "UnknownError" ].
Proof. vm_compute. reflexivity. Qed.

(** Three refused requests: three error records, a dead last status, the
    dead counter at 3 for the one URL, and the mirror of the domain. *)
Example dead_url :
  let st := Validator.validate_url refusing noon (Validator.initial one_url) the_url in
  Validator.history_of (Validator.data st) the_url
  = [ ErrorLog noon "ConnectionError" "Connection refused";
      ErrorLog noon "ConnectionError" "Connection refused";
      ErrorLog noon "ConnectionError" "Connection refused" ] /\
  alive <$> last_status (Validator.data st) !! the_url = Some (Some false) /\
  Validator.dead (Validator.summary st) = 3 /\
  Validator.error_count "ConnectionError" (Validator.summary st) = 3 /\
  mirror_suggestions (Validator.data st) !! the_url = Some "http://epgshare01.online/list.m3u".
Proof. vm_compute. repeat split. Qed.

End WorkedExamples.

(** * Further properties *)

(** ** The string primitives *)
Section StringFacts.

Lemma length_append (s1 s2 : string) :
  String.length (s1 ++ s2) = String.length s1 + String.length s2.
Proof.
  induction s1 as [|c s1 IH]; [reflexivity|].
  change (S (String.length (s1 ++ s2)) = S (String.length s1 + String.length s2)).
  f_equal. exact IH.
Qed.

Lemma append_assoc (s1 s2 s3 : string) : ((s1 ++ s2) ++ s3 = s1 ++ s2 ++ s3)%string.
Proof.
  induction s1 as [|c s1 IH]; [reflexivity|].
  change (String c ((s1 ++ s2) ++ s3) = String c (s1 ++ s2 ++ s3))%string.
  f_equal. exact IH.
Qed.

Lemma append_empty_r (s : string) : (s ++ "")%string = s.
Proof.
  induction s as [|c s IH]; [reflexivity|].
  change (String c (s ++ "") = String c s)%string. f_equal. exact IH.
Qed.

Lemma prefix_empty (s : string) : String.prefix "" s = true.
Proof. destruct s; reflexivity. Qed.

Lemma prefix_cons (a b : ascii) (p s : string) :
  String.prefix (String a p) (String b s) = true <-> a = b /\ String.prefix p s = true.
Proof.
  simpl. destruct (ascii_dec a b) as [->|Hne].
  - tauto.
  - split; [discriminate|]. intros [Heq _]. contradiction.
Qed.

(** [startswith]: the string begins with the prefix. *)
Lemma prefix_spec (p : string) :
  forall s, String.prefix p s = true <-> exists r, s = (p ++ r)%string.
Proof.
  induction p as [|a p IH]; intros s.
  - rewrite prefix_empty. split; [intros _; exists s; reflexivity|auto].
  - destruct s as [|b s].
    + simpl. split; [discriminate|]. intros [r Hr]. discriminate.
    + rewrite prefix_cons, IH. split.
      * intros [-> [r ->]]. exists r. reflexivity.
      * intros [r Hr]. simpl in Hr. injection Hr as -> ->. eauto.
Qed.

Lemma prefix_length (p s : string) :
  String.prefix p s = true -> String.length p <= String.length s.
Proof.
  intros H. apply prefix_spec in H as [r ->]. rewrite length_append. lia.
Qed.

Lemma contains_of_prefix (needle hay : string) :
  String.prefix needle hay = true -> Py.contains needle hay = true.
Proof. intros H. destruct hay; simpl in *; rewrite H; reflexivity. Qed.

(** [in]: the needle occurs somewhere in the string. *)
Lemma contains_spec (needle : string) :
  forall hay,
    Py.contains needle hay = true
    <-> exists before after, hay = (before ++ needle ++ after)%string.
Proof.
  induction hay as [|c hay IH].
  - change (Py.contains needle "") with (String.prefix needle "" || false).
    rewrite orb_false_r. split.
    + intros H. apply prefix_spec in H as [r Hr]. exists "", r. exact Hr.
    + intros (before & after & H). destruct before; [|discriminate].
      apply prefix_spec. exists after. exact H.
  - change (Py.contains needle (String c hay))
      with (String.prefix needle (String c hay) || Py.contains needle hay).
    rewrite orb_true_iff, IH, prefix_spec. split.
    + intros [[r Hr]|(before & after & ->)].
      * exists "", r. exact Hr.
      * exists (String c before), after. reflexivity.
    + intros (before & after & H). destruct before as [|b before].
      * left. exists after. exact H.
      * right. simpl in H. injection H as -> ->. eauto.
Qed.

Lemma contains_empty (hay : string) : Py.contains "" hay = true.
Proof. apply contains_of_prefix, prefix_empty. Qed.

Lemma lower_app (s1 s2 : string) : Py.lower (s1 ++ s2) = (Py.lower s1 ++ Py.lower s2)%string.
Proof.
  induction s1 as [|c s1 IH]; [reflexivity|].
  change (String (Py.lower_ascii c) (Py.lower (s1 ++ s2))
          = String (Py.lower_ascii c) (Py.lower s1 ++ Py.lower s2))%string.
  f_equal. exact IH.
Qed.

Lemma lower_ascii_idempotent (c : ascii) : Py.lower_ascii (Py.lower_ascii c) = Py.lower_ascii c.
Proof.
  destruct c as [[] [] [] [] [] [] [] []]; vm_compute; reflexivity.
Qed.

Lemma lower_idempotent (s : string) : Py.lower (Py.lower s) = Py.lower s.
Proof.
  induction s as [|c s IH]; simpl; [reflexivity|].
  rewrite lower_ascii_idempotent, IH. reflexivity.
Qed.

Lemma replace_from_cons (old new : string) (skip : nat) (c : ascii) (t : string) :
  Py.replace_from old new skip (String c t)
  = match skip with
    | S k => Py.replace_from old new k t
    | O => if String.prefix old (String c t)
           then (new ++ Py.replace_from old new (String.length old - 1) t)%string
           else String c (Py.replace_from old new 0 t)
    end.
Proof. reflexivity. Qed.

(** A replacement that is at least as long as what it replaces never
    shortens the string. *)
Lemma replace_from_length (old new : string) :
  1 <= String.length old -> String.length old <= String.length new ->
  forall s skip,
    String.length s <= String.length (Py.replace_from old new skip s) + skip.
Proof.
  intros Hold Hnew. induction s as [|c s IH]; intros skip; [simpl; lia|].
  rewrite replace_from_cons. destruct skip as [|k].
  - destruct (String.prefix old (String c s)).
    + rewrite length_append. specialize (IH (String.length old - 1)).
      change (String.length (String c s)) with (S (String.length s)). lia.
    + change (S (String.length s)
              <= S (String.length (Py.replace_from old new 0 s)) + 0).
      specialize (IH 0). lia.
  - specialize (IH k). change (String.length (String c s)) with (S (String.length s)). lia.
Qed.

(** And a longer one makes the string longer as soon as it applies. *)
Lemma replace_longer (old new : string) :
  1 <= String.length old -> String.length old < String.length new ->
  forall s, Py.contains old s = true ->
            String.length s < String.length (Py.replace old new s).
Proof.
  intros Hold Hnew. unfold Py.replace. induction s as [|c s IH]; intros Hin.
  - change (Py.contains old "") with (String.prefix old "" || false) in Hin.
    rewrite orb_false_r in Hin. apply prefix_length in Hin. simpl in Hin. lia.
  - change (Py.contains old (String c s))
      with (String.prefix old (String c s) || Py.contains old s) in Hin.
    rewrite replace_from_cons.
    change (String.length (String c s)) with (S (String.length s)).
    destruct (String.prefix old (String c s)); simpl in Hin.
    + rewrite length_append.
      pose proof (replace_from_length old new Hold ltac:(lia) s (String.length old - 1)).
      lia.
    + change (S (String.length s) < S (String.length (Py.replace_from old new 0 s))).
      specialize (IH Hin). lia.
Qed.

End StringFacts.

(** ** Mirror suggestions *)
Section MirrorFacts.
Import MirrorAdvisor Pass.

Lemma set_mirror_twice (url s1 s2 : string) (d : Data) :
  set_mirror url s2 (set_mirror url s1 d) = set_mirror url s2 d.
Proof. unfold set_mirror. simpl. rewrite insert_insert_eq. reflexivity. Qed.

(** [suggest_mirror] stores the suggestion of the last matching key, or
    leaves the store as it is. *)
Lemma suggest_mirror_is_suggestion (url : string) (d : Data) :
  suggest_mirror url d
  = match suggestion url with
    | Some s => set_mirror url s d
    | None => d
    end.
Proof.
  unfold suggest_mirror, suggestion. generalize MIRROR_MAP. intros items.
  change d with (match @None string with Some s => set_mirror url s d | None => d end) at 1.
  generalize (@None string). induction items as [|[key mirror] items IH]; intros acc; simpl.
  - reflexivity.
  - rewrite <- IH. f_equal. unfold suggest_step.
    destruct (Py.contains key url); [|reflexivity].
    destruct acc; [apply set_mirror_twice|reflexivity].
Qed.

Lemma suggestion_cases (url : string) :
  suggestion url
  = if Py.contains "epg.pw" url
    then Some (Py.replace "epg.pw" "epgshare01.online" url)
    else if Py.contains "iptv-org.github.io" url
         then Some (Py.replace "iptv-org.github.io" "raw.githubusercontent.com/iptv-org" url)
         else None.
Proof.
  unfold suggestion. simpl.
  destruct (Py.contains "iptv-org.github.io" url), (Py.contains "epg.pw" url); reflexivity.
Qed.

(** X1: the Mirror Advisor changes at most the suggestion stored for the
    failed URL: the URL lists, every history, every last status and the
    suggestions of all other URLs are as before; and when the URL contains
    neither known domain the store is unchanged. *)
Theorem X1_suggest_mirror_touches_one_suggestion (url : string) (d : Data) :
  playlist_urls (suggest_mirror url d) = playlist_urls d /\
  epg_urls (suggest_mirror url d) = epg_urls d /\
  status_history (suggest_mirror url d) = status_history d /\
  last_status (suggest_mirror url d) = last_status d /\
  (forall u, u <> url ->
             mirror_suggestions (suggest_mirror url d) !! u = mirror_suggestions d !! u) /\
  (Py.contains "iptv-org.github.io" url = false -> Py.contains "epg.pw" url = false ->
   suggest_mirror url d = d).
Proof.
  rewrite suggest_mirror_is_suggestion, suggestion_cases.
  destruct (Py.contains "epg.pw" url); [|destruct (Py.contains "iptv-org.github.io" url)];
    simpl; repeat split; try done;
    intros u Hne; by rewrite lookup_insert_ne.
Qed.

(** X2: the table is not searched for a first match: a URL that contains
    epg.pw gets the epgshare01.online suggestion even when it also contains
    iptv-org.github.io, the other suggestion is given only when epg.pw is
    absent, and each suggestion replaces one domain in the original URL.
    A stored suggestion is longer than the URL, so never the URL itself. *)
Theorem X2_last_matching_domain_wins (url : string) (d : Data) :
  mirror_suggestions (suggest_mirror url d) !! url
  = (if Py.contains "epg.pw" url
     then Some (Py.replace "epg.pw" "epgshare01.online" url)
     else if Py.contains "iptv-org.github.io" url
          then Some (Py.replace "iptv-org.github.io" "raw.githubusercontent.com/iptv-org" url)
          else mirror_suggestions d !! url) /\
  (forall s, suggestion url = Some s -> String.length url < String.length s).
Proof.
  rewrite suggest_mirror_is_suggestion, suggestion_cases. split.
  - destruct (Py.contains "epg.pw" url); [|destruct (Py.contains "iptv-org.github.io" url)];
      simpl; try done; by rewrite lookup_insert_eq.
  - intros s. destruct (Py.contains "epg.pw" url) eqn:H1;
      [|destruct (Py.contains "iptv-org.github.io" url) eqn:H2]; intros [= <-].
    + apply replace_longer; [simpl; lia|simpl; lia|exact H1].
    + apply replace_longer; [simpl; lia|simpl; lia|exact H2].
Qed.

(** A URL on both domains: the suggestion replaces epg.pw only. *)
Lemma X2_example_both_domains :
  String.length "http://iptv-org.github.io/epg.pw/x.m3u"
  < String.length "http://iptv-org.github.io/epgshare01.online/x.m3u".
Proof.
  apply (proj2 (X2_last_matching_domain_wins
                  "http://iptv-org.github.io/epg.pw/x.m3u" Examples.one_url)).
  vm_compute. reflexivity.
Defined.

End MirrorFacts.

(** ** The retry loop, visit by visit *)
Section PassFacts.
Import Validator Pass.
Variables (net : Network) (timestamp : string).

Lemma retry_recorded (url : string) (attempts : list nat) :
  forall st, exists new,
    recorded timestamp url attempts st
             (retry net timestamp url attempts st).1
             (retry net timestamp url attempts st).2 new.
Proof.
  induction attempts as [|a rest IH]; intros st; simpl.
  - exists []. unfold recorded. simpl. rewrite app_nil_r.
    repeat split; try done.
  - destruct (net (requests_made st) url) as [code elapsed|message] eqn:Hnet.
    + destruct (response_ok code) eqn:Hok; simpl.
      * exists [Status timestamp code true elapsed]. unfold recorded.
        change (data (count_alive (on_response timestamp url code elapsed st)))
          with (data (on_response timestamp url code elapsed st)).
        rewrite history_on_response, last_on_response, Hok. simpl.
        repeat split; try done.
        -- repeat constructor.
        -- lia.
        -- intros _. exists [], (Status timestamp code true elapsed). done.
        -- lia.
      * destruct (IH (on_response timestamp url code elapsed st))
          as (new & Hh & Hst & Hlen & Hne & Hf & Hs & Hl & Hr & Hm).
        exists (Status timestamp code false elapsed :: new). unfold recorded.
        rewrite Hh, history_on_response, Hok, <- app_assoc. simpl.
        split; [done|]. split; [constructor; [done|exact Hst]|].
        split; [lia|]. split; [done|]. split.
        { intros Hfail. destruct (Hf Hfail) as [-> ->]. done. }
        split.
        { intros Hsucc. destruct (Hs Hsucc) as (init & r & -> & Hr1 & Hr2).
          exists (Status timestamp code false elapsed :: init), r. done. }
        split.
        { rewrite Hl, last_on_response, Hok, last_cons. destruct (last new); done. }
        split; [rewrite Hr; simpl; lia|]. rewrite Hm. done.
    + destruct (IH (on_exception timestamp url message a st))
        as (new & Hh & Hst & Hlen & Hne & Hf & Hs & Hl & Hr & Hm).
      exists (ErrorLog timestamp (ErrorClassifier.categorize_error message) message :: new).
      unfold recorded. rewrite Hh, history_on_exception, <- app_assoc. simpl.
      split; [done|]. split; [constructor; [done|exact Hst]|].
      split; [lia|]. split; [done|]. split.
      { intros Hfail. destruct (Hf Hfail) as [-> ->]. done. }
      split.
      { intros Hsucc. destruct (Hs Hsucc) as (init & r & -> & Hr1 & Hr2).
        exists (ErrorLog timestamp (ErrorClassifier.categorize_error message) message :: init), r.
        done. }
      split.
      { rewrite Hl, last_on_exception, last_cons. destruct (last new); done. }
      split; [rewrite Hr; simpl; lia|]. rewrite Hm. done.
Qed.

Lemma retry_counted (url : string) (attempts : list nat) :
  forall st, exists delays,
    counted attempts st (retry net timestamp url attempts st).1
            (retry net timestamp url attempts st).2 delays.
Proof.
  induction attempts as [|a rest IH]; intros st; simpl.
  - exists []. unfold counted. simpl. rewrite app_nil_r.
    repeat split; try done; lia.
  - destruct (net (requests_made st) url) as [code elapsed|message].
    + destruct (response_ok code); simpl.
      * exists []. unfold counted. simpl. rewrite app_nil_r.
        repeat split; try done; [apply sublist_nil_l|lia].
      * destruct (IH (on_response timestamp url code elapsed st))
          as (delays & Hs & Hsub & Hd & Hc & Ha).
        exists delays. unfold counted. simpl in *.
        repeat split; try done. by apply sublist_cons.
    + destruct (IH (on_exception timestamp url message a st))
        as (delays & Hs & Hsub & Hd & Hc & Ha).
      exists (2 ^ a :: delays). unfold counted. simpl in *.
      rewrite Hs, <- app_assoc. repeat split; try done.
      * by apply sublist_skip.
      * lia.
Qed.

(** The loop gives up exactly when no attempt is ok. *)
Lemma retry_fails (url : string) (attempts : list nat) :
  forall st,
    (forall j, j < List.length attempts ->
               attempt_ok (net (requests_made st + j) url) = false) ->
    (retry net timestamp url attempts st).2 = false.
Proof.
  induction attempts as [|a rest IH]; intros st Hfail; simpl; [reflexivity|].
  pose proof (Hfail 0 ltac:(simpl; lia)) as H0. rewrite Nat.add_0_r in H0.
  destruct (net (requests_made st) url) as [code elapsed|message]; simpl in H0.
  - rewrite H0. apply IH. intros j Hj. simpl.
    replace (S (requests_made st + j)) with (requests_made st + S j) by lia.
    apply Hfail. simpl. lia.
  - apply IH. intros j Hj. simpl.
    replace (S (requests_made st + j)) with (requests_made st + S j) by lia.
    apply Hfail. simpl. lia.
Qed.

Lemma categorize_error_known (message : string) :
  ErrorClassifier.categorize_error message ∈ known_kinds.
Proof.
  unfold ErrorClassifier.categorize_error, known_kinds.
  repeat match goal with |- context [if ?b then _ else _] => destruct b end;
    set_solver.
Qed.

Lemma on_exception_kinds (url message : string) (attempt : nat) (st : State) :
  kinds_invariant (summary st) ->
  kinds_invariant (summary (on_exception timestamp url message attempt st)).
Proof.
  intros [Hkeys Hdead]. unfold kinds_invariant, on_exception. simpl.
  pose proof (categorize_error_known message) as Hknown.
  set (kind := ErrorClassifier.categorize_error message) in *. split.
  - intros k. destruct (decide (kind = k)) as [<-|Hne].
    + intros _. exact Hknown.
    + rewrite lookup_insert_ne by exact Hne. apply Hkeys.
  - unfold error_count at 1 2 3 4. simpl. rewrite !error_count_bump, Hdead.
    unfold known_kinds in Hknown.
    repeat (apply elem_of_cons in Hknown as [->|Hknown]); [simpl; lia ..|].
    inversion Hknown.
Qed.

Lemma retry_kinds (url : string) (attempts : list nat) :
  forall st, kinds_invariant (summary st) ->
             kinds_invariant (summary (retry net timestamp url attempts st).1).
Proof.
  induction attempts as [|a rest IH]; intros st Hinv; simpl; [exact Hinv|].
  destruct (net (requests_made st) url) as [code elapsed|message].
  - destruct (response_ok code); simpl; [exact Hinv|]. apply IH. exact Hinv.
  - apply IH. apply on_exception_kinds. exact Hinv.
Qed.

(** *** One visit *)

(** What [validate_url] does to the store of the URL it visits. *)
Lemma visit_recorded (url : string) (st : State) :
  exists success new,
    success = (retry net timestamp url (seq 0 3) (count_checked st)).2 /\
    recorded timestamp url (seq 0 3) st
             (retry net timestamp url (seq 0 3) (count_checked st)).1 success new /\
    history_of (data (validate_url net timestamp st url)) url
    = history_of (data st) url ++ new /\
    last_status (data (validate_url net timestamp st url)) !! url
    = last_status (data (retry net timestamp url (seq 0 3) (count_checked st)).1) !! url /\
    requests_made (validate_url net timestamp st url) = requests_made st + List.length new /\
    mirror_suggestions (data (validate_url net timestamp st url))
    = if success then mirror_suggestions (data st)
      else mirror_suggestions (MirrorAdvisor.suggest_mirror url (data st)).
Proof.
  destruct (retry_recorded url (seq 0 3) (count_checked st)) as (new & Hrec).
  exists (retry net timestamp url (seq 0 3) (count_checked st)).2, new.
  split; [reflexivity|]. split; [exact Hrec|].
  destruct Hrec as (Hh & _ & _ & _ & _ & _ & _ & Hr & Hm).
  unfold validate_url.
  destruct (retry net timestamp url (seq 0 3) (count_checked st)) as [st' success].
  simpl in *. destruct success; [repeat split; assumption|].
  simpl. destruct (suggest_mirror_untouched url url (data st')) as [[H1 H2] _].
  unfold history_of in *. rewrite H1, H2. repeat split; try assumption.
  rewrite !suggest_mirror_is_suggestion.
  destruct (suggestion url); simpl; rewrite Hm; reflexivity.
Qed.

(** What it does to the counters and the sleep trace. *)
Lemma visit_counted (url : string) (st : State) :
  exists delays,
    counted (seq 0 3) (count_checked st)
            (validate_url net timestamp st url)
            (retry net timestamp url (seq 0 3) (count_checked st)).2 delays.
Proof.
  destruct (retry_counted url (seq 0 3) (count_checked st)) as (delays & Hc).
  exists delays. unfold validate_url.
  destruct (retry net timestamp url (seq 0 3) (count_checked st)) as [st' success].
  destruct success; exact Hc.
Qed.

Lemma visit_kinds (url : string) (st : State) :
  kinds_invariant (summary st) ->
  kinds_invariant (summary (validate_url net timestamp st url)).
Proof.
  intros Hinv. unfold validate_url.
  pose proof (retry_kinds url (seq 0 3) (count_checked st) Hinv) as H.
  destruct (retry net timestamp url (seq 0 3) (count_checked st)) as [st' success].
  destruct success; exact H.
Qed.

Lemma alive_as_last_status (r : StatusRecord) :
  alive (as_last_status r) = Some (is_success r).
Proof. destruct r; reflexivity. Qed.

Lemma sublist_sum (l1 l2 : list nat) : sublist l1 l2 -> list_sum l1 <= list_sum l2.
Proof. induction 1; simpl; lia. Qed.

(** X3: a URL whose three attempts all fail, by an exception or by a
    response that is not ok, gets exactly three failure records, ends the
    visit with alive false, is not counted alive, and is handed to the
    Mirror Advisor: afterwards it has a suggestion exactly when it contains
    a known domain or had one before. *)
Theorem X3_three_failures_make_a_dead_url (url : string) (st : State) :
  (forall j, j < 3 -> attempt_ok (net (requests_made st + j) url) = false) ->
  let st' := validate_url net timestamp st url in
  (exists new,
      history_of (data st') url = history_of (data st) url ++ new /\
      List.length new = 3 /\ forallb is_failure new = true) /\
  alive <$> last_status (data st') !! url = Some (Some false) /\
  requests_made st' = requests_made st + 3 /\
  alive_total (summary st') = alive_total (summary st) /\
  mirror_suggestions (data st') !! url
  = match suggestion url with
    | Some s => Some s
    | None => mirror_suggestions (data st) !! url
    end.
Proof.
  intros Hfail st'.
  pose proof (retry_fails url (seq 0 3) (count_checked st) Hfail) as Hflag.
  destruct (visit_recorded url st) as (success & new & -> & Hrec & Hh & Hl & Hr & Hm).
  destruct (visit_counted url st) as (delays & _ & _ & _ & _ & Ha).
  rewrite Hflag in *.
  destruct Hrec as (_ & _ & _ & _ & Hf & _ & Hlast & _ & _).
  destruct (Hf eq_refl) as [Hlen Hfails]. simpl in Hlen.
  split; [exists new; done|]. split.
  { unfold st'. rewrite Hl, Hlast.
    destruct (last new) as [r|] eqn:Hr'.
    - simpl. rewrite alive_as_last_status. f_equal. f_equal.
      apply last_Some in Hr' as [init ->].
      rewrite forallb_app in Hfails. simpl in Hfails.
      unfold is_failure in Hfails. destruct (is_success r); [|reflexivity].
      rewrite andb_false_r in Hfails. discriminate.
    - apply last_None in Hr'. subst new. discriminate. }
  split; [unfold st'; rewrite Hr, Hlen; reflexivity|].
  split; [unfold st'; rewrite Ha; simpl; lia|].
  unfold st'. rewrite Hm, suggest_mirror_is_suggestion.
  destruct (suggestion url); simpl; [by rewrite lookup_insert_eq|reflexivity].
Qed.

(** X4: a URL that answers ok on attempt [S k] gets no further request,
    counts once as alive, and is not handed to the Mirror Advisor: the
    mirror suggestions are as before. *)
Theorem X4_success_ends_the_visit (url : string) (st : State) (k : nat) (code elapsed : Z) :
  k < 3 ->
  (forall j, j < k -> attempt_ok (net (requests_made st + j) url) = false) ->
  net (requests_made st + k) url = Response code elapsed ->
  response_ok code = true ->
  let st' := validate_url net timestamp st url in
  requests_made st' = requests_made st + S k /\
  alive_total (summary st') = S (alive_total (summary st)) /\
  checked (summary st') = S (checked (summary st)) /\
  mirror_suggestions (data st') = mirror_suggestions (data st).
Proof.
  intros Hk Hfail Hnet Hok st'.
  destruct (retry_succeeds_at net timestamp url code elapsed Hok (seq 0 3) k
              (count_checked st)) as (fs & st1 & Hretry & Hlen & _ & Hh1 & _);
    [simpl; lia|exact Hfail|exact Hnet|].
  assert (validate_url net timestamp st url = st1) as Hv
      by (unfold validate_url; rewrite Hretry; reflexivity).
  assert ((retry net timestamp url (seq 0 3) (count_checked st)).2 = true) as Hflag
      by (rewrite Hretry; reflexivity).
  destruct (visit_recorded url st) as (success & new & -> & _ & Hh & _ & Hr & Hm).
  destruct (visit_counted url st) as (delays & _ & _ & _ & Hc & Ha).
  rewrite Hflag in Hm, Ha.
  change (alive_total (summary (count_checked st))) with (alive_total (summary st)) in Ha.
  change (checked (summary (count_checked st))) with (S (checked (summary st))) in Hc.
  assert (new = fs ++ [Status timestamp code true elapsed]) as ->.
  { rewrite Hv, Hh1 in Hh.
    change (data (count_checked st)) with (data st) in Hh.
    apply app_inv_head in Hh. symmetry. exact Hh. }
  unfold st'. rewrite Hr, Hm, Ha, Hc, length_app. simpl. repeat split; lia.
Qed.

(** *** The whole pass *)

Lemma walk_lift (P : State -> string -> Prop) :
  (forall st url, P (validate_url net timestamp st url) url) ->
  (forall st url u, u <> url -> P st u -> P (validate_url net timestamp st url) u) ->
  forall urls st u,
    u ∈ urls \/ P st u -> P (foldl (validate_url net timestamp) st urls) u.
Proof.
  intros Hvisit Hother. induction urls as [|url urls IH]; intros st u Hu; simpl.
  - destruct Hu as [Hu|Hu]; [inversion Hu|exact Hu].
  - apply IH. destruct (decide (u = url)) as [->|Hne].
    + right. apply Hvisit.
    + destruct Hu as [Hu|Hu].
      * apply elem_of_cons in Hu as [Hu|Hu]; [contradiction|by left].
      * right. by apply Hother.
Qed.

(** X5: after a pass every URL of the two lists has a history that is not
    empty and a last status, and the last status is that of the last
    history record: same outcome, same timestamp. *)
Theorem X5_last_status_is_the_last_record
        (d : Data) (st : State) (dead_links : gmap string LastStatus) (u : string) :
  validate_urls net timestamp (Some d) = Some (st, dead_links) ->
  u ∈ urls_of d ->
  exists r,
    last (history_of (data st) u) = Some r /\
    last_status (data st) !! u = Some (as_last_status r) /\
    alive <$> last_status (data st) !! u = Some (Some (is_success r)) /\
    stamped timestamp r.
Proof.
  intros Hrun Hu. unfold validate_urls in Hrun. rewrite pass_is_one_walk in Hrun.
  injection Hrun as <- _.
  apply (walk_lift (fun st u => exists r,
           last (history_of (data st) u) = Some r /\
           last_status (data st) !! u = Some (as_last_status r) /\
           alive <$> last_status (data st) !! u = Some (Some (is_success r)) /\
           stamped timestamp r)); [| |by left].
  - clear. intros st url.
    destruct (visit_recorded url st) as (success & new & _ & Hrec & Hh & Hl & _).
    destruct Hrec as (_ & Hst & _ & Hne & _ & _ & Hlast & _).
    destruct (last new) as [r|] eqn:Hr.
    + exists r. rewrite Hh, Hl, Hlast.
      apply last_Some in Hr as [init ->]. rewrite app_assoc, last_snoc.
      repeat split; [simpl; by rewrite alive_as_last_status|].
      apply Forall_app in Hst as [_ Hst]. by inversion Hst.
    + apply last_None in Hr. destruct Hne; [discriminate|exact Hr].
  - clear. intros st url u Hne (r & H1 & H2 & H3 & H4).
    destruct (validate_url_untouched net timestamp url u st Hne) as [[Hh Hl] _].
    exists r. unfold history_of. rewrite Hh, Hl. done.
Qed.

(** X6: histories are append-only: after a pass the history of every URL
    is its history before the pass followed by the records of the pass,
    which all carry the timestamp of the pass; a URL outside the two lists
    has the history and the last status it had. *)
Theorem X6_histories_are_append_only
        (d : Data) (st : State) (dead_links : gmap string LastStatus) (u : string) :
  validate_urls net timestamp (Some d) = Some (st, dead_links) ->
  (exists new,
      history_of (data st) u = history_of d u ++ new /\ Forall (stamped timestamp) new) /\
  (u ∉ urls_of d ->
   history_of (data st) u = history_of d u /\ last_status (data st) !! u = last_status d !! u).
Proof.
  intros Hrun. unfold validate_urls in Hrun. rewrite pass_is_one_walk in Hrun.
  injection Hrun as <- _. split.
  - assert (forall urls s, exists new,
               history_of (data (foldl (validate_url net timestamp) s urls)) u
               = history_of (data s) u ++ new /\ Forall (stamped timestamp) new) as Hwalk.
    { induction urls as [|url urls IH]; intros s; simpl.
      - exists []. by rewrite app_nil_r.
      - destruct (IH (validate_url net timestamp s url)) as (new2 & -> & Hst2).
        destruct (decide (u = url)) as [->|Hne].
        + destruct (visit_recorded url s) as (success & new1 & _ & Hrec & -> & _).
          destruct Hrec as (_ & Hst1 & _).
          exists (new1 ++ new2). rewrite app_assoc. split; [done|by apply Forall_app].
        + destruct (validate_url_untouched net timestamp url u s Hne) as [[Hh _] _].
          exists new2. unfold history_of. rewrite Hh. done. }
    apply (Hwalk (urls_of d) (initial d)).
  - intros Hnotin.
    destruct (foldl_validate_untouched net timestamp (urls_of d) u Hnotin (initial d))
      as [Hh Hl].
    split; [exact Hh|exact Hl].
Qed.

(** X7: bounded retries: a pass over n URLs checks n URLs, makes at least
    n and at most 3 n requests, and counts at most n URLs alive. *)
Theorem X7_a_pass_makes_at_most_three_requests_per_url
        (d : Data) (st : State) (dead_links : gmap string LastStatus) :
  validate_urls net timestamp (Some d) = Some (st, dead_links) ->
  let n := List.length (urls_of d) in
  checked (summary st) = n /\
  alive_total (summary st) <= n /\
  n <= requests_made st <= 3 * n.
Proof.
  intros Hrun n. unfold validate_urls in Hrun. rewrite pass_is_one_walk in Hrun.
  injection Hrun as <- _.
  assert (forall urls s,
             let s' := foldl (validate_url net timestamp) s urls in
             checked (summary s') = checked (summary s) + List.length urls /\
             alive_total (summary s') <= alive_total (summary s) + List.length urls /\
             requests_made s + List.length urls <= requests_made s'
             <= requests_made s + 3 * List.length urls) as Hwalk.
  { induction urls as [|url urls IH]; intros s; simpl; [lia|].
    destruct (IH (validate_url net timestamp s url)) as (H1 & H2 & H3).
    destruct (visit_recorded url s) as (success & new & _ & Hrec & _ & _ & Hr & _).
    destruct (visit_counted url s) as (delays & _ & _ & _ & Hc & Ha).
    destruct Hrec as (_ & _ & Hlen & Hne & _).
    assert (1 <= List.length new <= 3) as Hnew.
    { simpl in Hlen. split; [|exact Hlen].
      destruct new; [destruct Hne; [discriminate|reflexivity]|simpl; lia]. }
    change (alive_total (summary (count_checked s))) with (alive_total (summary s)) in Ha.
    change (checked (summary (count_checked s))) with (S (checked (summary s))) in Hc.
    simpl List.length.
    destruct (retry net timestamp url (seq 0 3) (count_checked s)).2; lia. }
  destruct (Hwalk (urls_of d) (initial d)) as (H1 & H2 & H3). simpl in *. unfold n. lia.
Qed.

(** X8: backoff is bounded: every delay of a pass is 1, 2 or 4 seconds,
    there is one delay per failure counted in dead, and the delays of a
    pass over n URLs add up to at most 7 n seconds. *)
Theorem X8_backoff_is_bounded
        (d : Data) (st : State) (dead_links : gmap string LastStatus) :
  validate_urls net timestamp (Some d) = Some (st, dead_links) ->
  Forall (fun delay => delay ∈ backoff_delays) (sleeps st) /\
  List.length (sleeps st) = dead (summary st) /\
  list_sum (sleeps st) <= 7 * List.length (urls_of d).
Proof.
  intros Hrun. unfold validate_urls in Hrun. rewrite pass_is_one_walk in Hrun.
  injection Hrun as <- _.
  assert (forall urls s, exists delays,
             let s' := foldl (validate_url net timestamp) s urls in
             sleeps s' = sleeps s ++ delays /\
             Forall (fun delay => delay ∈ backoff_delays) delays /\
             dead (summary s') = dead (summary s) + List.length delays /\
             list_sum delays <= 7 * List.length urls) as Hwalk.
  { induction urls as [|url urls IH]; intros s; simpl.
    - exists []. simpl. rewrite app_nil_r.
      split; [done|]. split; [constructor|]. split; lia.
    - destruct (IH (validate_url net timestamp s url)) as (ds2 & -> & Hin2 & -> & Hsum2).
      destruct (visit_counted url s) as (ds1 & -> & Hsub & -> & _).
      exists (ds1 ++ ds2). rewrite <- app_assoc, length_app, list_sum_app.
      repeat split.
      + apply Forall_app. split; [|exact Hin2].
        apply Forall_forall. intros x Hx. apply (sublist_subseteq _ _ Hsub). exact Hx.
      + simpl. lia.
      + apply sublist_sum in Hsub. simpl in Hsub. lia. }
  destruct (Hwalk (urls_of d) (initial d)) as (delays & H1 & H2 & H3 & H4).
  simpl in *. subst. repeat split; [exact H2|lia|exact H4].
Qed.

(** X9: after a pass every key of the summary's error map is one of the
    four labels of the Error Classifier, and the dead counter is the total
    of the map: it counts failed attempts that raised, not URLs. *)
Theorem X9_error_map_has_the_four_kinds
        (d : Data) (st : State) (dead_links : gmap string LastStatus) :
  validate_urls net timestamp (Some d) = Some (st, dead_links) ->
  (forall kind, is_Some (errors (summary st) !! kind) -> kind ∈ known_kinds) /\
  dead (summary st)
  = error_count "Timeout" (summary st) + error_count "DNSFailure" (summary st)
    + error_count "ConnectionError" (summary st) + error_count "UnknownError" (summary st).
Proof.
  intros Hrun. unfold validate_urls in Hrun. rewrite pass_is_one_walk in Hrun.
  injection Hrun as <- _.
  assert (forall urls s, kinds_invariant (summary s) ->
             kinds_invariant (summary (foldl (validate_url net timestamp) s urls))) as Hwalk.
  { induction urls as [|url urls IH]; intros s Hs; simpl; [exact Hs|].
    apply IH, visit_kinds, Hs. }
  apply (Hwalk (urls_of d) (initial d)). split.
  - intros kind [x Hx]. simpl in Hx. by rewrite lookup_empty in Hx.
  - reflexivity.
Qed.

End PassFacts.

(** ** The pass on the worked examples *)
Section PassExamples.
Import Validator Pass Examples.

(** The refused URL: three error records, dead, and the mirror of epg.pw. *)
Lemma X3_example_refused_url :
  let st' := validate_url refusing noon (initial one_url) the_url in
  (exists new,
      history_of (data st') the_url = history_of (data (initial one_url)) the_url ++ new /\
      List.length new = 3 /\ forallb is_failure new = true) /\
  alive <$> last_status (data st') !! the_url = Some (Some false) /\
  requests_made st' = 3 /\
  alive_total (summary st') = 0 /\
  mirror_suggestions (data st') !! the_url = Some "http://epgshare01.online/list.m3u".
Proof.
  apply (X3_three_failures_make_a_dead_url refusing noon the_url (initial one_url)).
  intros j _. reflexivity.
Defined.

(** The flaky URL answers on its second attempt: two requests, no mirror. *)
Lemma X4_example_second_attempt :
  let st' := validate_url flaky noon (initial one_url) the_url in
  requests_made st' = 2 /\
  alive_total (summary st') = 1 /\
  checked (summary st') = 1 /\
  mirror_suggestions (data st') = ∅.
Proof.
  apply (X4_success_ends_the_visit flaky noon the_url (initial one_url) 1 200 35).
  - lia.
  - intros j Hj. destruct j; [reflexivity|lia].
  - reflexivity.
  - reflexivity.
Defined.

Lemma X5_example_last_record :
  exists st dead_links r,
    validate_urls flaky noon (Some one_url) = Some (st, dead_links) /\
    last (history_of (data st) the_url) = Some r /\
    last_status (data st) !! the_url = Some (as_last_status r) /\
    alive <$> last_status (data st) !! the_url = Some (Some (is_success r)) /\
    stamped noon r.
Proof.
  eexists _, _.
  destruct (X5_last_status_is_the_last_record flaky noon one_url _ _ the_url eq_refl)
    as (r & H); [apply list_elem_of_here|].
  exists r. split; [reflexivity|exact H].
Defined.

Lemma X6_example_history_grows :
  exists st dead_links,
    validate_urls flaky noon (Some one_url) = Some (st, dead_links) /\
    (exists new,
        history_of (data st) the_url = history_of one_url the_url ++ new
        /\ Forall (stamped noon) new) /\
    ("http://other/list.m3u" ∉ urls_of one_url ->
     history_of (data st) "http://other/list.m3u" = history_of one_url "http://other/list.m3u"
     /\ last_status (data st) !! "http://other/list.m3u"
        = last_status one_url !! "http://other/list.m3u").
Proof.
  eexists _, _. split; [reflexivity|]. split.
  - exact (proj1 (X6_histories_are_append_only flaky noon one_url _ _ the_url eq_refl)).
  - exact (proj2 (X6_histories_are_append_only flaky noon one_url _ _
                    "http://other/list.m3u" eq_refl)).
Defined.

Lemma X7_example_request_count :
  exists st dead_links,
    validate_urls refusing noon (Some one_url) = Some (st, dead_links) /\
    checked (summary st) = 1 /\ alive_total (summary st) <= 1 /\
    1 <= requests_made st <= 3 * 1.
Proof.
  eexists _, _. split; [reflexivity|].
  exact (X7_a_pass_makes_at_most_three_requests_per_url refusing noon one_url _ _ eq_refl).
Defined.

Lemma X8_example_delays :
  exists st dead_links,
    validate_urls refusing noon (Some one_url) = Some (st, dead_links) /\
    Forall (fun delay => delay ∈ backoff_delays) (sleeps st) /\
    List.length (sleeps st) = dead (summary st) /\
    list_sum (sleeps st) <= 7 * 1.
Proof.
  eexists _, _. split; [reflexivity|].
  exact (X8_backoff_is_bounded refusing noon one_url _ _ eq_refl).
Defined.

Lemma X9_example_error_kinds :
  exists st dead_links,
    validate_urls refusing noon (Some one_url) = Some (st, dead_links) /\
    (forall kind, is_Some (errors (summary st) !! kind) -> kind ∈ known_kinds) /\
    dead (summary st)
    = error_count "Timeout" (summary st) + error_count "DNSFailure" (summary st)
      + error_count "ConnectionError" (summary st) + error_count "UnknownError" (summary st).
Proof.
  eexists _, _. split; [reflexivity|].
  exact (X9_error_map_has_the_four_kinds refusing noon one_url _ _ eq_refl).
Defined.

End PassExamples.

(** ** Deduplication, further *)
Section DedupFacts.
Import Deduplicator Dedup.

Lemma nonempty_spec (s : string) : Py.nonempty s = true <-> s <> "".
Proof. destruct s; simpl; split; congruence. Qed.

Lemma foldl_step_kept (chs : list Channel) :
  forall seen unique,
    (foldl step (seen, unique) chs).2 = unique ++ kept_from seen chs.
Proof.
  induction chs as [|ch chs IH]; intros seen unique; simpl.
  - by rewrite app_nil_r.
  - destruct (Py.nonempty (TVG_ID ch) && bool_decide (TVG_ID ch ∉ seen)).
    + rewrite IH, <- app_assoc. reflexivity.
    + apply IH.
Qed.

Lemma deduplicate_is_kept (chs : list Channel) :
  deduplicate_channels chs = kept_from ∅ chs.
Proof. unfold deduplicate_channels. rewrite foldl_step_kept. reflexivity. Qed.

Lemma kept_sublist (chs : list Channel) :
  forall seen, sublist (kept_from seen chs) chs.
Proof.
  induction chs as [|ch chs IH]; intros seen; simpl; [constructor|].
  destruct (Py.nonempty (TVG_ID ch) && bool_decide (TVG_ID ch ∉ seen)).
  - apply sublist_skip, IH.
  - apply sublist_cons, IH.
Qed.

Lemma kept_ids (chs : list Channel) :
  forall seen,
    NoDup (ids (kept_from seen chs)) /\
    (forall i, i ∈ ids (kept_from seen chs) -> (i ∉ seen) /\ i <> "").
Proof.
  induction chs as [|ch chs IH]; intros seen; simpl.
  - split; [constructor|]. intros i Hi. inversion Hi.
  - destruct (Py.nonempty (TVG_ID ch)) eqn:Hne; simpl; [|apply IH].
    case_bool_decide as Hin; simpl; [|apply IH].
    destruct (IH ({[TVG_ID ch]} ∪ seen)) as [Hnodup Hout]. split.
    + unfold ids in *. simpl. constructor; [|exact Hnodup].
      intros Hmem. apply Hout in Hmem as [Hmem _].
      apply Hmem, elem_of_union_l, elem_of_singleton. reflexivity.
    + intros i Hi. unfold ids in Hi. simpl in Hi. apply elem_of_cons in Hi as [->|Hi].
      * split; [exact Hin|]. by apply nonempty_spec.
      * apply Hout in Hi as [Hi1 Hi2].
        split; [intros Hs; apply Hi1, elem_of_union_r, Hs|exact Hi2].
Qed.

Lemma kept_fixpoint (chs : list Channel) :
  forall seen,
    NoDup (ids chs) -> (forall i, i ∈ ids chs -> (i ∉ seen) /\ i <> "") ->
    kept_from seen chs = chs.
Proof.
  induction chs as [|ch chs IH]; intros seen Hnodup Hout; simpl; [reflexivity|].
  unfold ids in *. simpl in *. apply NoDup_cons in Hnodup as [Hfresh Hnodup].
  destruct (Hout (TVG_ID ch)) as [H1 H2]; [apply list_elem_of_here|].
  apply nonempty_spec in H2. rewrite H2, bool_decide_eq_true_2 by exact H1. simpl.
  f_equal. apply IH; [exact Hnodup|].
  intros i Hi. destruct (Hout i) as [H3 H4]; [by apply list_elem_of_further|].
  split; [|exact H4]. intros Hmem. apply elem_of_union in Hmem as [Hmem|Hmem]; [|done].
  apply elem_of_singleton in Hmem. subst i. done.
Qed.

Lemma kept_first_occurrence (chs : list Channel) (ch : Channel) :
  forall seen,
    ch ∈ kept_from seen chs
    <-> exists before after,
        chs = before ++ ch :: after /\ TVG_ID ch <> "" /\
        (TVG_ID ch ∉ seen) /\ (TVG_ID ch ∉ ids before).
Proof.
  induction chs as [|c chs IH]; intros seen; simpl.
  - split; [intros H; inversion H|].
    intros (before & after & H & _). destruct before; discriminate.
  - destruct (Py.nonempty (TVG_ID c)) eqn:Hne; simpl.
    + case_bool_decide as Hin; simpl.
      * rewrite elem_of_cons, IH. split.
        -- intros [->|(before & after & -> & H1 & H2 & H3)].
           ++ exists [], chs. repeat split; try done.
              ** by apply nonempty_spec.
              ** unfold ids. simpl. apply not_elem_of_nil.
           ++ exists (c :: before), after. repeat split; try done; [set_solver|].
              unfold ids. simpl. apply not_elem_of_cons. split; [set_solver|exact H3].
        -- intros (before & after & Heq & H1 & H2 & H3).
           destruct before as [|b before]; simpl in Heq; injection Heq as -> ->.
           ++ by left.
           ++ right. exists before, after. unfold ids in H3. simpl in H3.
              apply not_elem_of_cons in H3 as [H3 H4].
              repeat split; try done. set_solver.
      * rewrite IH. split.
        -- intros (before & after & -> & H1 & H2 & H3).
           exists (c :: before), after. repeat split; try done.
           unfold ids. simpl. apply not_elem_of_cons. split; [|exact H3].
           intros Heq. rewrite Heq in H2. done.
        -- intros (before & after & Heq & H1 & H2 & H3).
           destruct before as [|b before]; simpl in Heq; injection Heq as -> ->.
           ++ done.
           ++ exists before, after. unfold ids in H3. simpl in H3.
              apply not_elem_of_cons in H3 as [H3 H4]. done.
    + rewrite IH. split.
      * intros (before & after & -> & H1 & H2 & H3).
        exists (c :: before), after. repeat split; try done.
        unfold ids. simpl. apply not_elem_of_cons. split; [|exact H3].
        intros Heq. rewrite Heq in H1. apply nonempty_spec in H1. congruence.
      * intros (before & after & Heq & H1 & H2 & H3).
        destruct before as [|b before]; simpl in Heq; injection Heq as -> ->.
        -- apply nonempty_spec in H1. congruence.
        -- exists before, after. unfold ids in H3. simpl in H3.
           apply not_elem_of_cons in H3 as [H3 H4]. done.
Qed.

(** X10: deduplication is stable and settles in one run: the output is
    the input with records removed and none moved, no two output records
    share an identifier, and running it on its own output changes
    nothing. *)
Theorem X10_deduplication_is_stable_and_idempotent (chs : list Channel) :
  sublist (deduplicate_channels chs) chs /\
  NoDup (ids (deduplicate_channels chs)) /\
  deduplicate_channels (deduplicate_channels chs) = deduplicate_channels chs.
Proof.
  rewrite !deduplicate_is_kept. destruct (kept_ids chs ∅) as [Hnodup Hout].
  split; [apply kept_sublist|]. split; [exact Hnodup|].
  apply kept_fixpoint; [exact Hnodup|exact Hout].
Qed.

(** X11: the record kept for an identifier is its first occurrence: a
    record is in the output exactly when its identifier is not empty and
    no earlier record of the input carries it. *)
Theorem X11_first_occurrence_is_kept (chs : list Channel) (ch : Channel) :
  ch ∈ deduplicate_channels chs
  <-> exists before after,
      chs = before ++ ch :: after /\ TVG_ID ch <> "" /\ (TVG_ID ch ∉ ids before).
Proof.
  rewrite deduplicate_is_kept, kept_first_occurrence. split.
  - intros (before & after & H1 & H2 & _ & H3). eauto.
  - intros (before & after & H1 & H2 & H3). exists before, after.
    repeat split; try done; apply not_elem_of_empty.
Qed.

End DedupFacts.

(** ** The audit, further *)
Section AuditFacts.
Import Auditor Guide.

Lemma visit_entry_cases (source : string) (a : Audit) (e : GuideEntry) :
  visit_entry source a e
  = if usable e
    then if bool_decide (EPG_TVG_ID e ∈ seen_ids a)
         then mkAudit (seen_ids a) (duplicates a ++ [(source, EPG_TVG_ID e)])
                      (null_entries a) (empty_sources a)
         else mkAudit ({[EPG_TVG_ID e]} ∪ seen_ids a) (duplicates a)
                      (null_entries a) (empty_sources a)
    else mkAudit (seen_ids a) (duplicates a) (null_entries a ++ [(source, e)])
                 (empty_sources a).
Proof.
  unfold visit_entry, usable.
  destruct (Py.truthy (EPG_TVG_ID e)), (Py.truthy (TVG_EPGID e)); reflexivity.
Qed.

Lemma visit_entry_classified (source : string) (a : Audit) (e : GuideEntry) :
  classified (visit_entry source a e) = S (classified a) /\
  empty_sources (visit_entry source a e) = empty_sources a.
Proof.
  rewrite visit_entry_cases. unfold classified.
  destruct (usable e); [case_bool_decide as Hin|]; simpl; rewrite ?length_app; simpl.
  - split; [lia|reflexivity].
  - rewrite size_union by set_solver. rewrite size_singleton. split; [lia|reflexivity].
  - split; [lia|reflexivity].
Qed.

Lemma walk_entries_classified (source : string) (entries : list GuideEntry) :
  forall a,
    classified (foldl (visit_entry source) a entries)
    = classified a + List.length entries /\
    empty_sources (foldl (visit_entry source) a entries) = empty_sources a.
Proof.
  induction entries as [|e es IH]; intros a; simpl; [split; [lia|reflexivity]|].
  destruct (IH (visit_entry source a e)) as [-> ->].
  destruct (visit_entry_classified source a e) as [-> ->]. split; [lia|reflexivity].
Qed.

(** X12: every entry of a source is counted exactly once: the null
    entries, the duplicates and the distinct identifiers seen add up to the
    number of entries of the store, and the sources reported empty are
    exactly the sources without entries, in store order. *)
Theorem X12_audit_counts_every_entry_once (epg_data : list (string * list GuideEntry)) :
  let a := audit_epg_metadata epg_data in
  List.length (null_entries a) + List.length (duplicates a) + size (seen_ids a)
  = List.length (entries_of epg_data) /\
  empty_sources a = sources_without_entries epg_data.
Proof.
  unfold audit_epg_metadata.
  assert (forall a0,
             classified (foldl visit_source a0 epg_data)
             = classified a0 + List.length (entries_of epg_data) /\
             empty_sources (foldl visit_source a0 epg_data)
             = empty_sources a0 ++ sources_without_entries epg_data) as Hwalk.
  { induction epg_data as [|[source entries] items IH]; intros a0; cbn [foldl].
    - simpl. rewrite app_nil_r. unfold entries_of. simpl. split; [lia|reflexivity].
    - destruct (IH (visit_source a0 (source, entries))) as [-> ->].
      unfold entries_of, ODict.values in *. simpl. rewrite length_app.
      unfold visit_source. destruct entries as [|e es].
      + simpl. rewrite <- app_assoc. split; [|reflexivity].
        unfold classified. simpl. lia.
      + destruct (walk_entries_classified source (e :: es) a0) as [-> ->].
        split; [lia|reflexivity]. }
  destruct (Hwalk initial) as [H1 H2]. split; [exact H1|exact H2].
Qed.

Lemma visit_entry_tracks (source : string) (a : Audit) (e : GuideEntry)
      (walked : list (option string)) :
  tracks a walked ->
  tracks (visit_entry source a e)
         (walked ++ if usable e then [EPG_TVG_ID e] else []).
Proof.
  intros [Hseen Hdup]. rewrite visit_entry_cases. unfold tracks.
  destruct (usable e); [case_bool_decide as Hin|]; simpl.
  - split.
    + rewrite list_to_set_app_L, <- Hseen. simpl. set_solver.
    + split; [intros H; by apply app_nil in H as [_ [=]]|].
      intros Hnodup. apply NoDup_app in Hnodup as (_ & Hdisj & _).
      exfalso. rewrite Hseen in Hin. apply elem_of_list_to_set in Hin.
      apply (Hdisj _ Hin). apply list_elem_of_here.
  - split.
    + rewrite list_to_set_app_L, <- Hseen. simpl. set_solver.
    + rewrite Hdup. rewrite Hseen in Hin. rewrite elem_of_list_to_set in Hin.
      rewrite NoDup_app. split.
      * intros H. split; [exact H|]. split; [|apply NoDup_singleton].
        intros x Hx Hx'. apply list_elem_of_singleton in Hx'. subst x. done.
      * tauto.
  - rewrite app_nil_r. done.
Qed.

Lemma walk_entries_tracks (source : string) (entries : list GuideEntry) :
  forall a walked,
    tracks a walked ->
    tracks (foldl (visit_entry source) a entries)
           (walked ++ map EPG_TVG_ID (List.filter usable entries)).
Proof.
  induction entries as [|e es IH]; intros a walked Ha; simpl.
  - rewrite app_nil_r. exact Ha.
  - apply (visit_entry_tracks source a e) in Ha. apply IH in Ha.
    destruct (usable e); simpl in *.
    + rewrite <- app_assoc in Ha. exact Ha.
    + rewrite app_nil_r in Ha. exact Ha.
Qed.

(** X13: the seen set is the set of the identifiers of the usable
    entries, and the audit reports no duplicate exactly when these
    identifiers (a missing one included) are pairwise distinct. *)
Theorem X13_no_duplicate_iff_identifiers_distinct
        (epg_data : list (string * list GuideEntry)) :
  seen_ids (audit_epg_metadata epg_data) = list_to_set (walked_ids epg_data) /\
  (duplicates (audit_epg_metadata epg_data) = [] <-> NoDup (walked_ids epg_data)).
Proof.
  unfold audit_epg_metadata.
  assert (forall a walked, tracks a walked ->
             tracks (foldl visit_source a epg_data) (walked ++ walked_ids epg_data)) as Hwalk.
  { induction epg_data as [|[source entries] items IH]; intros a walked Ha; cbn [foldl].
    - unfold walked_ids, entries_of. simpl. rewrite app_nil_r. exact Ha.
    - replace (walked ++ walked_ids ((source, entries) :: items))
        with ((walked ++ map EPG_TVG_ID (List.filter usable entries)) ++ walked_ids items).
      + apply IH. unfold visit_source. destruct entries as [|e es].
        * simpl. rewrite app_nil_r. exact Ha.
        * apply walk_entries_tracks. exact Ha.
      + unfold walked_ids, entries_of, ODict.values. simpl.
        rewrite List.filter_app, map_app, app_assoc. reflexivity. }
  apply (Hwalk initial []). split; [reflexivity|]. split; [intros _; constructor|done].
Qed.

(** No usable entry is ever reported as a null entry. *)
Lemma audit_of_usable_has_no_null (epg_data : list (string * list GuideEntry)) :
  Forall (fun item => Forall (fun e => usable e = true) (snd item)) epg_data ->
  null_entries (audit_epg_metadata epg_data) = [].
Proof.
  unfold audit_epg_metadata.
  assert (forall source entries a,
             Forall (fun e => usable e = true) entries ->
             null_entries (foldl (visit_entry source) a entries) = null_entries a) as Hentries.
  { intros source. induction entries as [|e es IH]; intros a Hall; simpl; [reflexivity|].
    apply Forall_cons in Hall as [He Hes]. rewrite (IH _ Hes), visit_entry_cases, He.
    case_bool_decide; reflexivity. }
  assert (forall a, Forall (fun item => Forall (fun e => usable e = true) (snd item)) epg_data ->
             null_entries (foldl visit_source a epg_data) = null_entries a) as Hwalk.
  { induction epg_data as [|[source entries] items IH]; intros a Hall; cbn [foldl];
      [reflexivity|].
    apply Forall_cons in Hall as [Hitem Hitems]. rewrite (IH _ Hitems).
    unfold visit_source. destruct entries as [|e es]; [reflexivity|].
    apply Hentries. exact Hitem. }
  intros Hall. apply (Hwalk initial Hall).
Qed.

End AuditFacts.

(** ** Guide extraction, further *)
Section GuideGroupFacts.
Import GuideExtractor Guide.

Lemma set_keeps_nodup {V : Type} (k : string) (v : V) (d : list (string * V)) :
  NoDup (ODict.keys d) -> NoDup (ODict.keys (ODict.set k v d)).
Proof.
  unfold ODict.keys. induction d as [|[k0 v0] d IH]; simpl; intros Hnodup.
  - repeat constructor. apply not_elem_of_nil.
  - apply NoDup_cons in Hnodup as [Hfresh Hnodup].
    destruct (String.eqb_spec k0 k) as [->|Hne]; simpl.
    + by constructor.
    + constructor; [|by apply IH].
      intros Hin. apply (keys_set k k0 v d) in Hin as [Hin|Hin]; [congruence|done].
Qed.

Lemma set_members {V : Type} (k k' : string) (v v' : V) (d : list (string * V)) :
  (k', v') ∈ ODict.set k v d -> (k' = k /\ v' = v) \/ (k', v') ∈ d.
Proof.
  induction d as [|[k0 v0] d IH]; simpl.
  - intros Hin. apply list_elem_of_singleton in Hin. injection Hin as -> ->. by left.
  - destruct (String.eqb_spec k0 k) as [->|Hne]; intros Hin;
      apply elem_of_cons in Hin as [Hin|Hin].
    + injection Hin as -> ->. by left.
    + right. by apply list_elem_of_further.
    + right. rewrite Hin. apply list_elem_of_here.
    + destruct (IH Hin) as [H|H]; [by left|right; by apply list_elem_of_further].
Qed.

(** The group of a document: its usable channels, in document order. *)
Lemma entries_from_is_a_filter (url : string) (channels : list XmlChannel) :
  entries_from url channels
  = map (fun c => mkGuideEntry (xml_id c) (xml_display_name c) url "EPG" "unknown")
        (List.filter (fun c => Py.truthy (xml_id c) || Py.truthy (xml_display_name c))
                     channels).
Proof.
  unfold entries_from.
  assert (forall acc,
             foldl (visit_channel url) acc channels
             = acc ++ map (fun c => mkGuideEntry (xml_id c) (xml_display_name c) url
                                                 "EPG" "unknown")
                          (List.filter (fun c => Py.truthy (xml_id c)
                                                 || Py.truthy (xml_display_name c))
                                       channels)) as H.
  { induction channels as [|c cs IH]; intros acc; simpl; [by rewrite app_nil_r|].
    rewrite IH. unfold visit_channel.
    destruct (Py.truthy (xml_id c)), (Py.truthy (xml_display_name c)); simpl;
      rewrite <- ?app_assoc; reflexivity. }
  apply (H []).
Qed.

Lemma entries_from_usable (url : string) (channels : list XmlChannel) :
  Forall (fun e => usable e = true /\ TVG_EPGURL e = url
                   /\ entry_type e = "EPG" /\ language e = "unknown")
         (entries_from url channels).
Proof.
  rewrite entries_from_is_a_filter. apply Forall_forall. intros e He.
  apply list_elem_of_fmap in He as (c & -> & Hc).
  apply list_elem_of_In, List.filter_In in Hc as [_ Hc]. unfold usable. simpl. done.
Qed.

Lemma extract_from_groups (fetch : Fetch) (urls : list string) :
  forall n epg_data,
    NoDup (ODict.keys epg_data) ->
    NoDup (ODict.keys (extract_from fetch n urls epg_data)) /\
    (forall url entries,
        (url, entries) ∈ extract_from fetch n urls epg_data ->
        (url, entries) ∈ epg_data
        \/ exists i channels, urls !! i = Some url /\ fetch (n + i) url = Some channels
                              /\ entries = entries_from url channels).
Proof.
  induction urls as [|u urls IH]; intros n epg_data Hnodup; simpl.
  - split; [exact Hnodup|]. intros url entries Hin. by left.
  - destruct (fetch n u) as [channels|] eqn:Hfetch.
    + destruct (IH (S n) (ODict.set u (foldl (visit_channel u) [] channels) epg_data))
        as [H1 H2]; [by apply set_keeps_nodup|].
      split; [exact H1|]. intros url entries Hin.
      destruct (H2 url entries Hin) as [Hold|(i & cs & Hi & Hf & He)].
      * apply set_members in Hold as [[-> ->]|Hold]; [|by left].
        right. exists 0, channels. rewrite Nat.add_0_r. done.
      * right. exists (S i), cs. rewrite <- Nat.add_succ_comm. done.
    + destruct (IH (S n) epg_data Hnodup) as [H1 H2].
      split; [exact H1|]. intros url entries Hin.
      destruct (H2 url entries Hin) as [Hold|(i & cs & Hi & Hf & He)]; [by left|].
      right. exists (S i), cs. rewrite <- Nat.add_succ_comm. done.
Qed.

(** X14: the guide store has one group per URL, also for a URL listed
    twice; every group is the parse of a document fetched from its URL:
    the usable channels of the document in document order, each entry
    carrying the URL, the type EPG and the language unknown. *)
Theorem X14_one_group_per_parsed_url
        (fetch : Fetch) (d : Data) (epg_data : list (string * list GuideEntry)) :
  extract_epg_metadata fetch (Some d) = Some epg_data ->
  NoDup (ODict.keys epg_data) /\
  forall url entries,
    (url, entries) ∈ epg_data ->
    (exists i channels,
        epg_urls d !! i = Some url /\ fetch i url = Some channels /\
        entries
        = map (fun c => mkGuideEntry (xml_id c) (xml_display_name c) url "EPG" "unknown")
              (List.filter (fun c => Py.truthy (xml_id c) || Py.truthy (xml_display_name c))
                           channels)) /\
    Forall (fun e => usable e = true /\ TVG_EPGURL e = url) entries.
Proof.
  intros Hrun. injection Hrun as <-.
  destruct (extract_from_groups fetch (epg_urls d) 0 []) as [H1 H2]; [constructor|].
  split; [exact H1|]. intros url entries Hin.
  destruct (H2 url entries Hin) as [Hold|(i & cs & Hi & Hf & ->)]; [inversion Hold|].
  split.
  - exists i, cs. rewrite <- entries_from_is_a_filter. done.
  - eapply Forall_impl; [apply entries_from_usable|]. simpl. tauto.
Qed.

(** X15: the audit of a store written by the extractor reports no null
    entry: the extractor has dropped them all, so every entry of the store
    is a duplicate or a new identifier. *)
Theorem X15_audit_of_extracted_guides_has_no_null_entry
        (fetch : Fetch) (d : Data) (epg_data : list (string * list GuideEntry)) :
  extract_epg_metadata fetch (Some d) = Some epg_data ->
  Auditor.null_entries (Auditor.audit_epg_metadata epg_data) = [] /\
  List.length (Auditor.duplicates (Auditor.audit_epg_metadata epg_data))
  + size (Auditor.seen_ids (Auditor.audit_epg_metadata epg_data))
  = List.length (entries_of epg_data).
Proof.
  intros Hrun. injection Hrun as <-.
  destruct (extract_from_groups fetch (epg_urls d) 0 []) as [_ H2]; [constructor|].
  assert (Auditor.null_entries
            (Auditor.audit_epg_metadata (extract_from fetch 0 (epg_urls d) [])) = [])
    as Hnull.
  { apply audit_of_usable_has_no_null. apply Forall_forall. intros [url entries] Hin.
    destruct (H2 url entries Hin) as [Hold|(i & cs & _ & _ & ->)]; [inversion Hold|].
    simpl. eapply Forall_impl; [apply entries_from_usable|]. simpl. tauto. }
  split; [exact Hnull|].
  assert (forall data a0,
             classified (foldl Auditor.visit_source a0 data)
             = classified a0 + List.length (entries_of data)) as Hcount.
  { induction data as [|[source entries] items IH]; intros a0; cbn [foldl].
    - unfold entries_of. simpl. lia.
    - rewrite IH. unfold entries_of, ODict.values. simpl. rewrite length_app.
      unfold Auditor.visit_source. destruct entries as [|e es].
      + unfold classified. simpl. lia.
      + destruct (walk_entries_classified source (e :: es) a0) as [-> _]. lia. }
  specialize (Hcount (extract_from fetch 0 (epg_urls d) []) Auditor.initial).
  unfold classified, Auditor.audit_epg_metadata in *. rewrite Hnull in Hcount.
  simpl in Hcount. exact Hcount.
Qed.

End GuideGroupFacts.

(** ** Playlist extraction, further *)
Section PlaylistRecordFacts.
Import PlaylistExtractor Playlist.

Lemma scan_value_cons (c : ascii) (t : string) :
  Py.scan_value (String c t)
  = if Ascii.eqb c "034"%char then Some EmptyString
    else if Ascii.eqb c "010"%char then None
         else match Py.scan_value t with
              | Some v => Some (String c v)
              | None => None
              end.
Proof. reflexivity. Qed.

(** The lazy group matches the text up to the next quote, if no newline
    comes first. *)
Lemma scan_value_spec (s v : string) :
  Py.scan_value s = Some v
  <-> plain v = true /\ exists after, s = (v ++ quote ++ after)%string.
Proof.
  revert v. induction s as [|c s IH]; intros v.
  - simpl. split; [discriminate|]. intros [_ [after H]]. destruct v; discriminate.
  - rewrite scan_value_cons.
    destruct (Ascii.eqb c "034"%char) eqn:Hq; [|destruct (Ascii.eqb c "010"%char) eqn:Hn].
    + apply Ascii.eqb_eq in Hq. subst c. split.
      * intros [= <-]. split; [reflexivity|]. exists s. reflexivity.
      * intros [Hplain [after H]]. destruct v as [|c v]; [reflexivity|].
        injection H as <- _. discriminate.
    + apply Ascii.eqb_eq in Hn. subst c. split; [discriminate|].
      intros [Hplain [after H]]. destruct v as [|c v]; [discriminate|].
      injection H as <- _. discriminate.
    + split.
      * destruct (Py.scan_value s) as [v'|] eqn:Hscan; [|discriminate].
        intros [= <-]. destruct (proj1 (IH v') eq_refl) as [Hplain [after ->]].
        split; [simpl; rewrite Hq, Hn; exact Hplain|]. exists after. reflexivity.
      * intros [Hplain [after H]]. destruct v as [|c' v].
        -- injection H as -> _. discriminate.
        -- injection H as <- ->. simpl in Hplain. rewrite Hq, Hn in Hplain.
           simpl in Hplain.
           assert (Py.scan_value (v ++ quote ++ after) = Some v) as ->
               by (apply IH; eauto).
           reflexivity.
Qed.

Lemma drop_prefix (p s : string) : Py.drop (String.length p) (p ++ s) = s.
Proof. induction p as [|c p IH]; [destruct s; reflexivity|exact IH]. Qed.

Lemma search_group_unfold (opening s : string) :
  Py.search_group opening s
  = match (if String.prefix opening s
           then Py.scan_value (Py.drop (String.length opening) s) else None) with
    | Some v => Some v
    | None => match s with
              | EmptyString => None
              | String _ t => Py.search_group opening t
              end
    end.
Proof. destruct s; reflexivity. Qed.

(** What the pattern extracts is a quoted text of the line. *)
Lemma search_group_sound (opening : string) :
  forall s v,
    Py.search_group opening s = Some v ->
    plain v = true /\
    exists before after, s = (before ++ opening ++ v ++ quote ++ after)%string.
Proof.
  induction s as [|c s IH]; intros v; rewrite search_group_unfold.
  - destruct (String.prefix opening "") eqn:Hp; [|discriminate].
    destruct (Py.scan_value (Py.drop (String.length opening) "")) as [v'|] eqn:Hs;
      [|discriminate].
    intros [= <-]. apply prefix_spec in Hp as [r Hr]. rewrite Hr, drop_prefix in Hs.
    apply scan_value_spec in Hs as [Hplain [after ->]].
    split; [exact Hplain|]. exists "", after. exact Hr.
  - destruct (String.prefix opening (String c s)) eqn:Hp.
    + destruct (Py.scan_value (Py.drop (String.length opening) (String c s))) as [v'|] eqn:Hs.
      * intros [= <-]. apply prefix_spec in Hp as [r Hr]. rewrite Hr, drop_prefix in Hs.
        apply scan_value_spec in Hs as [Hplain [after ->]].
        split; [exact Hplain|]. exists "", after. exact Hr.
      * intros Hrec. apply IH in Hrec as [Hplain (before & after & ->)].
        split; [exact Hplain|]. exists (String c before), after. reflexivity.
    + intros Hrec. apply IH in Hrec as [Hplain (before & after & ->)].
      split; [exact Hplain|]. exists (String c before), after. reflexivity.
Qed.

(** And it extracts something whenever the line has such a quoted text. *)
Lemma search_group_complete (opening : string) :
  forall before v after,
    plain v = true ->
    is_Some (Py.search_group opening (before ++ opening ++ v ++ quote ++ after)).
Proof.
  induction before as [|c before IH]; intros v after Hplain; rewrite search_group_unfold.
  - change ("" ++ opening ++ v ++ quote ++ after)%string
      with (opening ++ v ++ quote ++ after)%string.
    assert (String.prefix opening (opening ++ v ++ quote ++ after) = true) as ->
        by (apply prefix_spec; eauto).
    rewrite drop_prefix.
    assert (Py.scan_value (v ++ quote ++ after) = Some v) as ->
        by (apply scan_value_spec; eauto).
    eauto.
  - change (String c before ++ opening ++ v ++ quote ++ after)%string
      with (String c (before ++ opening ++ v ++ quote ++ after)).
    destruct (if String.prefix opening (String c (before ++ opening ++ v ++ quote ++ after))
              then _ else None); [eauto|].
    apply IH. exact Hplain.
Qed.

(** X16: an attribute of a header line is found exactly when the line has
    the attribute name, an equals sign and a quoted text without a newline;
    what is extracted is such a quoted text of the line, so it never
    contains a double quote or a newline. *)
Theorem X16_attribute_is_a_quoted_text_of_the_line (name info : string) :
  (forall v, attribute name info = Some v ->
             plain v = true /\
             exists before after,
               info = (before ++ (name ++ "=" ++ quote) ++ v ++ quote ++ after)%string) /\
  (is_Some (attribute name info)
   <-> exists before v after,
       plain v = true /\
       info = (before ++ (name ++ "=" ++ quote) ++ v ++ quote ++ after)%string).
Proof.
  unfold attribute. split.
  - intros v Hv. apply search_group_sound in Hv. exact Hv.
  - split.
    + intros [v Hv]. apply search_group_sound in Hv as [Hplain (before & after & H)].
      exists before, v, after. done.
    + intros (before & v & after & Hplain & ->). by apply search_group_complete.
Qed.

Lemma one_line_snoc (cur : string) (c : ascii) :
  one_line cur = true -> Py.is_line_break c = false ->
  one_line (cur ++ String c "") = true.
Proof.
  intros Hcur Hc. induction cur as [|x cur IH].
  - simpl. rewrite Hc. reflexivity.
  - change (one_line (String x (cur ++ String c "")) = true).
    simpl in *. apply andb_true_iff in Hcur as [-> Hcur]. simpl. apply IH, Hcur.
Qed.

(** No line of [splitlines] holds a line boundary. *)
Lemma splitlines_from_one_line (n : nat) :
  forall s cur,
    String.length s <= n -> one_line cur = true ->
    Forall (fun line => one_line line = true) (Py.splitlines_from cur s).
Proof.
  induction n as [|n IH]; intros s cur Hlen Hcur.
  - destruct s; [|simpl in Hlen; lia]. simpl.
    destruct (Py.nonempty cur); repeat constructor. exact Hcur.
  - destruct s as [|c t].
    + simpl. destruct (Py.nonempty cur); repeat constructor. exact Hcur.
    + simpl in Hlen. simpl.
      destruct (Ascii.eqb c "013"%char).
      * destruct t as [|c' t'].
        -- simpl. repeat constructor. exact Hcur.
        -- simpl in Hlen. destruct (Ascii.eqb c' "010"%char).
           ++ constructor; [exact Hcur|]. apply IH; [lia|reflexivity].
           ++ constructor; [exact Hcur|]. apply IH; [simpl; lia|reflexivity].
      * destruct (Py.is_line_break c) eqn:Hbreak.
        -- constructor; [exact Hcur|]. apply IH; [lia|reflexivity].
        -- apply IH; [lia|]. by apply one_line_snoc.
Qed.

Lemma splitlines_one_line (text : string) :
  Forall (fun line => one_line line = true) (Py.splitlines text).
Proof. apply (splitlines_from_one_line (String.length text)); [lia|reflexivity]. Qed.

Lemma group_or_empty_plain (name info : string) :
  plain (group_or_empty (attribute name info)) = true.
Proof.
  unfold attribute. destruct (Py.search_group _ info) as [v|] eqn:Hv; [|reflexivity].
  apply search_group_sound in Hv as [Hplain _]. exact Hplain.
Qed.

Lemma parse_lines_member (url : string) (lines : list string) (ch : Channel) :
  ch ∈ parse_lines url lines ->
  exists i info,
    lines !! i = Some info /\ Py.startswith "#EXTINF" info = true /\
    ch = channel_at url lines i info /\
    Py.nonempty (TVG_NAME ch) || Py.nonempty (TVG_ID ch) = true.
Proof.
  unfold parse_lines. rewrite list_elem_of_In, in_flat_map.
  intros (i & _ & Hin). unfold visit_line in Hin.
  destruct (lines !! i) as [info|] eqn:Hinfo; [|destruct Hin].
  destruct (Py.startswith "#EXTINF" info) eqn:Hstart; [|destruct Hin].
  destruct (Py.nonempty (TVG_NAME (channel_at url lines i info))
            || Py.nonempty (TVG_ID (channel_at url lines i info))) eqn:Hkeep;
    [|destruct Hin].
  destruct Hin as [<-|[]]. exists i, info. done.
Qed.

(** The loop over the URLs, as a concatenation. *)
Lemma extract_from_is_concat (fetch : Fetch) (urls : list string) :
  forall n channels,
    extract_from fetch n urls channels
    = channels ++ concat (imap (fun i url => records_of fetch (n + i) url) urls).
Proof.
  induction urls as [|url urls IH]; intros n channels; simpl.
  - by rewrite app_nil_r.
  - rewrite IH, Nat.add_0_r. unfold records_of at 2.
    assert (imap ((fun i u => records_of fetch (n + i) u) ∘ S) urls
            = imap (fun i u => records_of fetch (S n + i) u) urls) as ->.
    { apply imap_ext. intros i u _. simpl. f_equal. lia. }
    destruct (fetch n url); simpl; rewrite <- ?app_assoc; reflexivity.
Qed.

(** X17: every extracted record carries a playlist URL of the store as its
    source, the language Unknown and no match; it has an identifier or a
    name; its four attributes hold no double quote and no newline, and its
    stream URL is one line of the playlist (or empty): no line boundary. *)
Theorem X17_extracted_records_are_well_formed
        (fetch : Fetch) (d : Data) (channels : list Channel) (ch : Channel) :
  extract_m3u_metadata fetch (Some d) = Some channels ->
  ch ∈ channels ->
  source_url ch ∈ playlist_urls d /\
  TVG_LANGUAGE ch = "Unknown" /\
  matched_epg_id ch = None /\
  (TVG_ID ch <> "" \/ TVG_NAME ch <> "") /\
  plain (TVG_ID ch) && plain (TVG_NAME ch) && plain (TVG_LOGO ch) && plain (TVG_GROUP ch)
  = true /\
  one_line (TVG_URL ch) = true.
Proof.
  intros Hrun Hin. injection Hrun as <-.
  rewrite extract_from_is_concat in Hin. simpl in Hin.
  apply list_elem_of_In, in_concat in Hin as (records & Hrecords & Hch).
  apply list_elem_of_In, elem_of_lookup_imap in Hrecords as (i & url & -> & Hurl).
  apply list_elem_of_In in Hch.
  unfold records_of in Hch. destruct (fetch i url) as [text|]; [|inversion Hch].
  apply parse_lines_member in Hch as (k & info & Hinfo & _ & Hch & Hkeep).
  subst ch. unfold channel_at in *. simpl in *.
  split; [by eapply list_elem_of_lookup_2|]. split; [reflexivity|]. split; [reflexivity|].
  split.
  { apply orb_true_iff in Hkeep as [H|H]; apply nonempty_spec in H; tauto. }
  split; [by rewrite !group_or_empty_plain|].
  destruct (Py.splitlines text !! (k + 1)) as [line|] eqn:Hline; [|reflexivity].
  simpl. pose proof (splitlines_one_line text) as Hall.
  rewrite Forall_forall in Hall. apply Hall. by eapply list_elem_of_lookup_2.
Qed.

(** X18: the batch is the concatenation, in list order, of what each URL
    yields on its own: the records of its text, and nothing when its fetch
    fails; a failure changes nothing for the other URLs. *)
Theorem X18_batch_is_the_concatenation_of_its_urls (fetch : Fetch) (d : Data) :
  extract_m3u_metadata fetch (Some d)
  = Some (concat (imap (records_of fetch) (playlist_urls d))) /\
  (forall n url, fetch n url = None -> records_of fetch n url = []).
Proof.
  split.
  - unfold extract_m3u_metadata. rewrite extract_from_is_concat. reflexivity.
  - intros n url Hnone. unfold records_of. rewrite Hnone. reflexivity.
Qed.

End PlaylistRecordFacts.

(** ** Matching with the globals of the script *)
Section ScriptMatchFacts.
Import Reconciler.

Lemma match_loop_without_names (globals : list (string * PyObj))
      (epg_entries : list GuideEntry) (channels : list Channel) :
  forall matched,
    forallb (fun ch => negb (Py.nonempty (TVG_NAME ch))) channels = true ->
    match_loop globals epg_entries channels matched = Ok (channels, matched).
Proof.
  induction channels as [|ch rest IH]; intros matched Hall; [reflexivity|].
  simpl in Hall. apply andb_true_iff in Hall as [Hch Hrest].
  cbn [match_loop]. rewrite Hch, (IH matched Hrest). reflexivity.
Qed.

(** X19: in the script, [smart_match] (and [match_channels_to_epg], whose
    loop is the same) returns only when no channel has a name, and then it
    leaves the channels as they are and reports 0 matches; as soon as one
    channel has a name it ends in the NameError of the matcher, before the
    channel file is written. *)
Theorem X19_smart_match_returns_only_without_names
        (channels : list Channel) (epg_grouped : list (string * list GuideEntry)) :
  smart_match module_globals channels epg_grouped
  = if forallb (fun ch => negb (Py.nonempty (TVG_NAME ch))) channels
    then Ok (channels, 0)
    else Raise (NameError "difflib").
Proof.
  unfold smart_match.
  destruct (forallb (fun ch => negb (Py.nonempty (TVG_NAME ch))) channels) eqn:Hall.
  - by apply match_loop_without_names.
  - apply match_loop_raises. clear -Hall.
    induction channels as [|c cs IH]; [discriminate|].
    simpl in Hall. destruct (Py.nonempty (TVG_NAME c)) eqn:Hc.
    + by apply Exists_cons_hd.
    + apply Exists_cons_tl, IH. exact Hall.
Qed.

End ScriptMatchFacts.

(** ** Filtering, searching and comparing *)
Section CliFacts.
Import Cli.

Lemma rstrip_blank (s : string) : blank s = true -> rstrip s = "".
Proof.
  induction s as [|c s IH]; simpl; [reflexivity|].
  intros H. apply andb_true_iff in H as [Hc Hs]. rewrite (IH Hs), Hc. reflexivity.
Qed.

Lemma read_blank (typed : string) : blank typed = true -> read typed = "".
Proof. intros H. unfold read, strip. rewrite (rstrip_blank _ H). reflexivity. Qed.

Lemma is_space_lower (c : ascii) : is_space (Py.lower_ascii c) = is_space c.
Proof. destruct c as [[] [] [] [] [] [] [] []]; vm_compute; reflexivity. Qed.

Lemma lstrip_lower (s : string) : lstrip (Py.lower s) = Py.lower (lstrip s).
Proof.
  induction s as [|c s IH]; simpl; [reflexivity|].
  rewrite is_space_lower. destruct (is_space c); [exact IH|reflexivity].
Qed.

Lemma rstrip_lower (s : string) : rstrip (Py.lower s) = Py.lower (rstrip s).
Proof.
  induction s as [|c s IH]; simpl; [reflexivity|].
  rewrite IH, is_space_lower. destruct (rstrip s); simpl; [|reflexivity].
  destruct (is_space c); reflexivity.
Qed.

(** The case of what is typed does not matter. *)
Lemma read_lower (typed : string) : read (Py.lower typed) = read typed.
Proof.
  unfold read, strip. rewrite rstrip_lower, lstrip_lower. apply lower_idempotent.
Qed.

Lemma filter_all {A : Type} (p : A -> bool) (l : list A) :
  (forall x, p x = true) -> List.filter p l = l.
Proof.
  intros Hp. induction l as [|x l IH]; simpl; [reflexivity|]. rewrite Hp, IH. reflexivity.
Qed.

Lemma filter_and {A : Type} (p q : A -> bool) (l : list A) :
  List.filter (fun x => p x && q x) l = List.filter p (List.filter q l).
Proof.
  induction l as [|x l IH]; simpl; [reflexivity|].
  destruct (q x); simpl; [|rewrite andb_false_r; exact IH].
  rewrite andb_true_r. destruct (p x); [f_equal|]; exact IH.
Qed.

Lemma filter_is_sublist {A : Type} (p : A -> bool) (l : list A) :
  sublist (List.filter p l) l.
Proof.
  induction l as [|x l IH]; simpl; [constructor|].
  destruct (p x); [by apply sublist_skip|by apply sublist_cons].
Qed.

Lemma find_is_first_of_filter {A : Type} (p : A -> bool) (l : list A) :
  List.find p l = head (List.filter p l).
Proof.
  induction l as [|x l IH]; simpl; [reflexivity|]. destruct (p x); [reflexivity|exact IH].
Qed.

Lemma passes_blank (ch : Channel) : passes "" "" ch = true.
Proof. reflexivity. Qed.

Lemma passes_splits (group lang : string) (ch : Channel) :
  passes group lang ch = passes group "" ch && passes "" lang ch.
Proof. unfold passes. simpl. rewrite andb_true_r. reflexivity. Qed.

(** X20: the filter keeps the store order and drops channels only; the
    group filter and the language filter compose: filtering by both is
    filtering by the language and then by the group; and the letter case
    of what is typed does not matter. *)
Theorem X20_filters_keep_order_and_compose
        (typed_group typed_lang : string) (channels : list Channel) :
  sublist (filter_channels typed_group typed_lang channels) channels /\
  filter_channels typed_group typed_lang channels
  = filter_channels typed_group "" (filter_channels "" typed_lang channels) /\
  filter_channels (Py.lower typed_group) (Py.lower typed_lang) channels
  = filter_channels typed_group typed_lang channels.
Proof.
  unfold filter_channels. split; [apply filter_is_sublist|]. split.
  - change (read "") with "". rewrite <- filter_and.
    apply List.filter_ext. intros ch. apply passes_splits.
  - rewrite !read_lower. reflexivity.
Qed.

(** X21: an input left blank (nothing, or white space only) selects
    everything: both filters blank return the whole store, a blank search
    returns the whole store, and a blank side of a comparison is the first
    channel of the store. *)
Theorem X21_blank_input_selects_everything
        (typed_group typed_lang typed_query : string) (channels : list Channel) :
  blank typed_group = true -> blank typed_lang = true -> blank typed_query = true ->
  filter_channels typed_group typed_lang channels = channels /\
  search_channels typed_query channels = channels /\
  find_channel (read typed_query) channels = head channels.
Proof.
  intros Hg Hl Hq. unfold filter_channels, search_channels.
  rewrite (read_blank _ Hg), (read_blank _ Hl), (read_blank _ Hq).
  split; [apply filter_all, passes_blank|].
  split; [apply filter_all; intros ch; unfold hit; by rewrite contains_empty|].
  unfold find_channel. destruct channels as [|ch rest]; [reflexivity|].
  simpl. rewrite contains_empty. reflexivity.
Qed.

(** Three spaces, a tab, and nothing. *)
Lemma X21_example_blank_inputs :
  filter_channels "   " "" [Examples.bbc1_first; Examples.no_id]
  = [Examples.bbc1_first; Examples.no_id] /\
  search_channels (String "009" "") [Examples.bbc1_first; Examples.no_id]
  = [Examples.bbc1_first; Examples.no_id] /\
  find_channel (read (String "009" "")) [Examples.bbc1_first; Examples.no_id]
  = head [Examples.bbc1_first; Examples.no_id].
Proof.
  apply (X21_blank_input_selects_everything "   " "" (String "009" "")); reflexivity.
Defined.

(** X22: a comparison shows the first hits of the two searches: each side
    is the first channel, in store order, that a search for the same input
    lists, and nothing is compared when either search is empty. The letter
    case of the query does not matter to the search. *)
Theorem X22_comparison_takes_the_first_search_hits
        (typed_1 typed_2 : string) (channels : list Channel) :
  compare_channels typed_1 typed_2 channels
  = match head (search_channels typed_1 channels),
          head (search_channels typed_2 channels) with
    | Some ch1, Some ch2 => Some (ch1, ch2)
    | _, _ => None
    end /\
  search_channels (Py.lower typed_1) channels = search_channels typed_1 channels.
Proof.
  assert (forall q, find_channel q channels = head (List.filter (hit q) channels)) as Hfind.
  { intros q. unfold find_channel. rewrite find_is_first_of_filter. f_equal.
    apply List.filter_ext. intros ch. unfold hit. apply orb_comm. }
  unfold compare_channels, search_channels. rewrite !Hfind, read_lower. done.
Qed.

End CliFacts.

(** ** The summary dashboard *)
Section DashboardFacts.
Import Dashboard.

Lemma get_set_eq {V : Type} (k : string) (v : V) (d : list (string * V)) :
  get k (ODict.set k v d) = Some v.
Proof.
  induction d as [|[k0 v0] d IH]; simpl.
  - by rewrite String.eqb_refl.
  - destruct (String.eqb_spec k0 k) as [->|Hne]; simpl.
    + by rewrite String.eqb_refl.
    + destruct (String.eqb_spec k0 k); [contradiction|exact IH].
Qed.

Lemma get_set_ne {V : Type} (k k' : string) (v : V) (d : list (string * V)) :
  k' <> k -> get k' (ODict.set k v d) = get k' d.
Proof.
  intros Hne. induction d as [|[k0 v0] d IH]; simpl.
  - destruct (String.eqb_spec k k'); [congruence|reflexivity].
  - destruct (String.eqb_spec k0 k) as [->|Hne0]; simpl.
    + destruct (String.eqb_spec k k'); [congruence|reflexivity].
    + destruct (String.eqb_spec k0 k'); [reflexivity|exact IH].
Qed.

Lemma count_step_sum (counts : list (string * nat)) (g : string) :
  list_sum (ODict.values (count_step counts g)) = S (list_sum (ODict.values counts)).
Proof.
  unfold count_step, ODict.values. induction counts as [|[k v] counts IH]; simpl.
  - reflexivity.
  - destruct (String.eqb_spec k g) as [->|Hne]; simpl; [lia|].
    rewrite IH. lia.
Qed.

Lemma occurrences_cons (g l : string) (labels : list string) :
  occurrences g (l :: labels)
  = (if String.eqb g l then 1 else 0) + occurrences g labels.
Proof. unfold occurrences. simpl. destruct (String.eqb g l); reflexivity. Qed.

Lemma count_fold (labels : list string) :
  forall counts g,
    get g (foldl count_step counts labels)
    = match occurrences g labels with
      | O => get g counts
      | S _ => Some (default 0 (get g counts) + occurrences g labels)
      end.
Proof.
  induction labels as [|l labels IH]; intros counts g; [reflexivity|].
  cbn [foldl]. rewrite IH, occurrences_cons. unfold count_step.
  destruct (String.eqb_spec g l) as [->|Hne].
  - rewrite get_set_eq. simpl. destruct (occurrences l labels); f_equal; lia.
  - rewrite get_set_ne by exact Hne. reflexivity.
Qed.

Lemma count_fold_sum (labels : list string) :
  forall counts,
    list_sum (ODict.values (foldl count_step counts labels))
    = list_sum (ODict.values counts) + List.length labels.
Proof.
  induction labels as [|l labels IH]; intros counts; simpl; [lia|].
  rewrite IH, count_step_sum. lia.
Qed.

Lemma count_fold_nodup (labels : list string) :
  forall counts,
    NoDup (ODict.keys counts) -> NoDup (ODict.keys (foldl count_step counts labels)).
Proof.
  induction labels as [|l labels IH]; intros counts Hnodup; simpl; [exact Hnodup|].
  apply IH. unfold count_step. by apply set_keeps_nodup.
Qed.

(** X23: the dashboard counts every channel once under its cleaned group
    and once under its cleaned language: each label is listed once, with
    the number of channels that carry it and never with 0, and the counts
    of the groups, like those of the languages, add up to the total. *)
Theorem X23_dashboard_counts_add_up (channels : list Channel) :
  let s := generate_summary_dashboard channels in
  total s = List.length channels /\
  list_sum (ODict.values (group_counts s)) = total s /\
  list_sum (ODict.values (language_counts s)) = total s /\
  NoDup (ODict.keys (group_counts s)) /\
  NoDup (ODict.keys (language_counts s)) /\
  (forall g,
      get g (group_counts s)
      = match occurrences g (map (fun ch => clean (TVG_GROUP ch)) channels) with
        | O => None
        | S n => Some (S n)
        end) /\
  (forall l,
      get l (language_counts s)
      = match occurrences l (map (fun ch => clean (TVG_LANGUAGE ch)) channels) with
        | O => None
        | S n => Some (S n)
        end).
Proof.
  unfold generate_summary_dashboard, count_labels. simpl.
  rewrite !count_fold_sum, !length_map. simpl.
  repeat split; try apply count_fold_nodup; try constructor.
  - intros g. rewrite count_fold. simpl. destruct (occurrences g _); reflexivity.
  - intros l. rewrite count_fold. simpl. destruct (occurrences l _); reflexivity.
Qed.

End DashboardFacts.

(** ** The HTML table *)
Section HtmlFacts.
Import Html.

Lemma replace_char (c : ascii) (new s : string) :
  Py.replace (String c "") new s = substitute c new s.
Proof.
  unfold Py.replace. induction s as [|x s IH]; [reflexivity|].
  rewrite replace_from_cons. change (String.length (String c "") - 1) with 0.
  simpl substitute.
  change (String.prefix (String c "") (String x s))
    with (if ascii_dec c x then String.prefix "" s else false).
  rewrite prefix_empty.
  destruct (ascii_dec c x) as [->|Hne].
  - rewrite Ascii.eqb_refl, IH. reflexivity.
  - apply Ascii.eqb_neq in Hne. rewrite Hne, IH. reflexivity.
Qed.

Lemma count_append (c : ascii) (a b : string) :
  count c (a ++ b) = count c a + count c b.
Proof.
  induction a as [|x a IH]; [reflexivity|].
  change (count c (String x (a ++ b)) = count c (String x a) + count c b).
  simpl. rewrite IH. lia.
Qed.

Lemma count_substitute_self (c : ascii) (new s : string) :
  count c new = 0 -> count c (substitute c new s) = 0.
Proof.
  intros Hnew. induction s as [|x s IH]; [reflexivity|]. simpl.
  destruct (Ascii.eqb c x) eqn:Hcx.
  - rewrite count_append, Hnew, IH. reflexivity.
  - simpl. rewrite Hcx, IH. reflexivity.
Qed.

Lemma count_substitute_other (c d : ascii) (new s : string) :
  count d new = 0 -> count d s = 0 -> count d (substitute c new s) = 0.
Proof.
  intros Hnew. induction s as [|x s IH]; [reflexivity|]. simpl. intros Hs.
  destruct (Ascii.eqb c x).
  - rewrite count_append, Hnew, IH; [reflexivity|lia].
  - simpl. destruct (Ascii.eqb d x); [lia|]. apply IH. lia.
Qed.

Lemma substitute_absent (c : ascii) (new s : string) :
  count c s = 0 -> substitute c new s = s.
Proof.
  induction s as [|x s IH]; [reflexivity|]. simpl.
  destruct (Ascii.eqb c x); [lia|]. intros Hs. f_equal. apply IH. lia.
Qed.

Lemma escape_is_substitution (s : string) :
  escape s
  = substitute "'" "&#x27;"
      (substitute "034" "&quot;"
         (substitute ">" "&gt;" (substitute "<" "&lt;" (substitute "&" "&amp;" s)))).
Proof.
  unfold escape, quote, PlaylistExtractor.quote. rewrite !replace_char. reflexivity.
Qed.

(** X24: what [esc] returns holds none of the characters that open or
    close a tag or an attribute value: no less-than sign, no greater-than
    sign, no double quote and no apostrophe; and a text without these and
    without an ampersand is returned as it is. *)
Theorem X24_escaped_text_has_no_markup_character (text : string) :
  count "<" (esc text) = 0 /\ count ">" (esc text) = 0 /\
  count "034" (esc text) = 0 /\ count "'" (esc text) = 0 /\
  (count "&" text + count "<" text + count ">" text
   + count "034" text + count "'" text = 0 -> esc text = text).
Proof.
  unfold esc. destruct (Py.nonempty text) eqn:Hne.
  - rewrite escape_is_substitution. repeat split.
    + do 3 (apply count_substitute_other; [reflexivity|]).
      apply count_substitute_self. reflexivity.
    + do 2 (apply count_substitute_other; [reflexivity|]).
      apply count_substitute_self. reflexivity.
    + apply count_substitute_other; [reflexivity|].
      apply count_substitute_self. reflexivity.
    + apply count_substitute_self. reflexivity.
    + intros Hplain.
      rewrite (substitute_absent "&") by lia. rewrite (substitute_absent "<") by lia.
      rewrite (substitute_absent ">") by lia. rewrite (substitute_absent "034") by lia.
      apply substitute_absent. lia.
  - destruct text; [|discriminate]. repeat split.
Qed.

Lemma count_esc (c : ascii) (text : string) :
  c ∈ ["<"; ">"; "034"; "'"]%char -> count c (esc text) = 0.
Proof.
  intros Hc. unfold esc. destruct (Py.nonempty text); [|reflexivity].
  rewrite escape_is_substitution.
  repeat (apply elem_of_cons in Hc as [->|Hc]); [..|inversion Hc].
  - do 3 (apply count_substitute_other; [reflexivity|]).
    apply count_substitute_self. reflexivity.
  - do 2 (apply count_substitute_other; [reflexivity|]).
    apply count_substitute_self. reflexivity.
  - apply count_substitute_other; [reflexivity|].
    apply count_substitute_self. reflexivity.
  - apply count_substitute_self. reflexivity.
Qed.

Lemma count_esc_optional (c : ascii) (text : option string) :
  c ∈ ["<"; ">"; "034"; "'"]%char -> count c (esc_optional text) = 0.
Proof. intros Hc. destruct text; [by apply count_esc|reflexivity]. Qed.

Lemma count_matched (c : ascii) (ch : Channel) :
  c ∈ ["<"; ">"; "034"; "'"]%char -> count c (matched ch) = 0.
Proof.
  intros Hc. unfold matched.
  repeat (apply elem_of_cons in Hc as [->|Hc]); [..|inversion Hc];
    destruct (Py.truthy (matched_epg_id ch)); reflexivity.
Qed.

Lemma count_row (c : ascii) (ch : Channel) :
  c ∈ ["<"; ">"; "034"; "'"]%char ->
  count c (row ch) = count c (row (mkChannel "" "" "" "" "" "" "" None)).
Proof.
  intros Hc. unfold row. rewrite !count_append.
  rewrite !(count_esc c), !(count_esc_optional c), !(count_matched c) by exact Hc.
  reflexivity.
Qed.

Lemma concat_cons (x : string) (xs : list string) :
  String.concat "" (x :: xs) = (x ++ String.concat "" xs)%string.
Proof. destruct xs; simpl; [by rewrite append_empty_r|reflexivity]. Qed.

Lemma count_rows (c : ascii) (channels : list Channel) :
  c ∈ ["<"; ">"; "034"; "'"]%char ->
  count c (String.concat "" (map row channels))
  = count c (row (mkChannel "" "" "" "" "" "" "" None)) * List.length channels.
Proof.
  intros Hc. induction channels as [|ch channels IH]; [simpl; lia|].
  cbn [map]. rewrite concat_cons, count_append, IH, (count_row c ch Hc). simpl. lia.
Qed.

(** X25: the markup of the table depends on the number of channels only:
    whatever the channels hold, the table has 24 + 21 n less-than signs,
    as many greater-than signs, 8 + 18 n double quotes and no apostrophe,
    for n channels: no field of a channel can open or close a tag or an
    attribute. *)
Theorem X25_table_markup_depends_on_the_row_count_only (channels : list Channel) :
  let n := List.length channels in
  count "<" (format_html_table channels) = 24 + 21 * n /\
  count ">" (format_html_table channels) = 24 + 21 * n /\
  count "034" (format_html_table channels) = 8 + 18 * n /\
  count "'" (format_html_table channels) = 0.
Proof.
  unfold format_html_table. cbv zeta. rewrite !count_append.
  rewrite !count_rows by (repeat first [apply list_elem_of_here|apply list_elem_of_further]).
  repeat split; vm_compute count; lia.
Qed.

End HtmlFacts.

(** ** Error classification *)
Section ClassifierFacts.
Import ErrorClassifier.

(** X26: the classification looks for its words anywhere in the message
    and in any letter case, and timeout comes first: a message that
    mentions a timeout is a Timeout whatever else it mentions, a connection
    or a name resolution included. *)
Theorem X26_a_timeout_anywhere_is_a_timeout (before word after : string) :
  Py.lower word = "timeout" ->
  categorize_error (before ++ word ++ after) = "Timeout".
Proof.
  intros Hword. unfold categorize_error.
  assert (Py.contains "timeout" (Py.lower (before ++ word ++ after)) = true) as ->.
  { apply contains_spec. exists (Py.lower before), (Py.lower after).
    rewrite !lower_app, Hword. reflexivity. }
  reflexivity.
Qed.

(** A connection error of the requests library that timed out. *)
Lemma X26_example_connect_timeout :
  categorize_error
    ("HTTPSConnectionPool(host='epg.pw'): Max retries exceeded (Caused by Connect"
     ++ "TimeOut" ++ "Error: Connection to epg.pw timed out)")
  = "Timeout".
Proof.
  apply (X26_a_timeout_anywhere_is_a_timeout
           "HTTPSConnectionPool(host='epg.pw'): Max retries exceeded (Caused by Connect"
           "TimeOut" "Error: Connection to epg.pw timed out)").
  reflexivity.
Defined.

End ClassifierFacts.

(** ** The further properties on the worked examples *)
Section FurtherExamples.
Import Examples.

(** The guide store of the three example URLs: two groups, distinct keys,
    and the group of the first URL is its one usable channel. *)
Lemma X14_example_guide_groups :
  exists epg_data,
    GuideExtractor.extract_epg_metadata guides (Some guide_urls) = Some epg_data /\
    NoDup (ODict.keys epg_data) /\
    forall url entries,
      (url, entries) ∈ epg_data ->
      (exists i channels,
          epg_urls guide_urls !! i = Some url /\ guides i url = Some channels /\
          entries
          = map (fun c => mkGuideEntry (GuideExtractor.xml_id c)
                                       (GuideExtractor.xml_display_name c) url "EPG" "unknown")
                (List.filter (fun c => Py.truthy (GuideExtractor.xml_id c)
                                       || Py.truthy (GuideExtractor.xml_display_name c))
                             channels)) /\
      Forall (fun e => Guide.usable e = true /\ TVG_EPGURL e = url) entries.
Proof.
  eexists. split; [reflexivity|].
  exact (X14_one_group_per_parsed_url guides guide_urls _ eq_refl).
Defined.

Lemma X15_example_no_null_entry :
  exists epg_data,
    GuideExtractor.extract_epg_metadata guides (Some guide_urls) = Some epg_data /\
    Auditor.null_entries (Auditor.audit_epg_metadata epg_data) = [] /\
    List.length (Auditor.duplicates (Auditor.audit_epg_metadata epg_data))
    + size (Auditor.seen_ids (Auditor.audit_epg_metadata epg_data))
    = List.length (Guide.entries_of epg_data).
Proof.
  eexists. split; [reflexivity|].
  exact (X15_audit_of_extracted_guides_has_no_null_entry guides guide_urls _ eq_refl).
Defined.

(** The identifier of the example header is the quoted text after its
    name. *)
Lemma X16_example_identifier :
  Playlist.plain "a" = true /\
  exists before after,
    header "a" "A"
    = (before ++ ("tvg-id" ++ "=" ++ PlaylistExtractor.quote) ++ "a"
       ++ PlaylistExtractor.quote ++ after)%string.
Proof.
  apply (proj1 (X16_attribute_is_a_quoted_text_of_the_line "tvg-id" (header "a" "A"))).
  vm_compute. reflexivity.
Defined.

(** The first record of the playlist with two headers. *)
Lemma X17_example_record :
  let ch := mkChannel "a" "A" "" "" (header "b" "B") "Unknown" the_url None in
  source_url ch ∈ playlist_urls one_url /\
  TVG_LANGUAGE ch = "Unknown" /\
  matched_epg_id ch = None /\
  (TVG_ID ch <> "" \/ TVG_NAME ch <> "") /\
  Playlist.plain (TVG_ID ch) && Playlist.plain (TVG_NAME ch)
  && Playlist.plain (TVG_LOGO ch) && Playlist.plain (TVG_GROUP ch) = true /\
  Playlist.one_line (TVG_URL ch) = true.
Proof.
  apply (X17_extracted_records_are_well_formed (serve two_headers) one_url
           [ mkChannel "a" "A" "" "" (header "b" "B") "Unknown" the_url None;
             mkChannel "b" "B" "" "" "http://x/b.m3u8" "Unknown" the_url None ]).
  - vm_compute. reflexivity.
  - apply list_elem_of_here.
Defined.

(** A plain name is not changed by the escaping. *)
Lemma X24_example_plain_name : Html.esc "BBC One" = "BBC One".
Proof.
  apply (proj2 (proj2 (proj2 (proj2 (X24_escaped_text_has_no_markup_character "BBC One"))))).
  reflexivity.
Defined.

End FurtherExamples.
